(** * RPort: the client registry, its filters, and the dispatch of commands

    A shallow embedding of the parts of the RPort server that its
    specification makes checkable statements about:

    - [Validation]: [server/validation/interpreter.go];
    - [Strings] and [Regexp]: what [server/clients/cr.go] uses of Go's
      packages [strings] and [regexp];
    - [Clients]: the client repository of [server/clients/cr.go] with the
      provider interface of [server/clients/sqlite.go];
    - [Comm]: the request helper of package [comm];
    - [Jobs] and [ClientsAuth]: the job life cycle and the deletion of a
      ClientAuth that [server/api_test.go] exercises, after the
      specification.

    The definitions come first, the properties after them. *)

From Stdlib Require Import String Ascii List ZArith Bool Lia.
From stdpp Require Import base option list gmap strings pretty fin_maps.

Set Warnings "-register-all".

Local Open Scope string_scope.
Local Open Scope list_scope.

(** Go's [error] values are modelled by their message; [None] is [nil]. *)
Definition error : Type := option string.

(** [fmt.Sprintf("%s", xs)] for a slice of strings: the elements separated by
    one space, inside square brackets. *)
Fixpoint joinWith (sep : string) (xs : list string) : string :=
  match xs with
  | [] => EmptyString
  | [x] => x
  | x :: rest => x +:+ sep +:+ joinWith sep rest
  end.

Definition sprintSlice (xs : list string) : string :=
  "[" +:+ joinWith " " xs +:+ "]".

(** ** server/validation/interpreter.go *)
Module Validation.

(** The three names are constants of package [share], which
    [interpreter.go] imports; their values are the ones printed by the
    error message that [TestHandlePostCommand] expects:
    [[cmd powershell tacoscript]]. *)
Definition CmdShell : string := "cmd".
Definition PowerShell : string := "powershell".
Definition Tacoscript : string := "tacoscript".

Definition validInputInterpreter : list string :=
  [CmdShell; PowerShell; Tacoscript].

(** The [for _, v := range validInputInterpreter] loop with its early
    [return nil]. *)
Fixpoint rangeContains (interpreter : string) (vs : list string) : bool :=
  match vs with
  | [] => false
  | v :: rest => if String.eqb interpreter v then true
                 else rangeContains interpreter rest
  end.

Definition ValidateInterpreter (interpreter : string) (isScript : bool) : error :=
  if String.eqb interpreter EmptyString then None
  else if negb isScript && String.eqb interpreter Tacoscript then
    Some (Tacoscript +:+ " interpreter can't be used for commands execution")
  else if rangeContains interpreter validInputInterpreter then None
  else Some ("expected interpreter to be one of: "
             +:+ sprintSlice validInputInterpreter
             +:+ ", actual: " +:+ interpreter).

End Validation.

(** ** The part of Go's [strings] and [regexp] packages that cr.go uses *)
Module Strings.

Fixpoint hasPrefix (prefix s : string) : bool :=
  match prefix, s with
  | EmptyString, _ => true
  | String a prefix', String b s' => Ascii.eqb a b && hasPrefix prefix' s'
  | String _ _, EmptyString => false
  end.

(** [replaceFrom skip s]: the rest of the left-to-right scan of
    [strings.ReplaceAll]; [skip] counts the bytes of the current occurrence
    of [old] that are still to be dropped. *)
Fixpoint replaceFrom (old new : string) (skip : nat) (s : string) : string :=
  match s with
  | EmptyString => EmptyString
  | String c rest =>
      match skip with
      | S k => replaceFrom old new k rest
      | O => if hasPrefix old s
             then new +:+ replaceFrom old new (String.length old - 1) rest
             else String c (replaceFrom old new 0 rest)
      end
  end.

(** [strings.ReplaceAll(s, old, new)] for a non-empty [old]: the
    non-overlapping occurrences of [old] are replaced from left to right.
    (cr.go calls it with [old = "*"].) *)
Definition ReplaceAll (s old new : string) : string :=
  replaceFrom old new 0 s.

End Strings.

Module Regexp.

(** The syntax tree of a parsed pattern, with the operators of Go's
    [regexp/syntax] that the modelled patterns need. *)
Inductive Syntax : Type :=
| OpNoMatch
| OpEmptyMatch
| OpLiteral (c : ascii)
| OpAnyCharNotNL
| OpConcat (a b : Syntax)
| OpAlternate (a b : Syntax)
| OpStar (a : Syntax).

Inductive ErrorCode : Type :=
| ErrTrailingBackslash
| ErrMissingRepeatArgument
| ErrInvalidRepeatOp.

Definition isalnum (c : ascii) : bool :=
  let n := nat_of_ascii c in
  (((48 <=? n) && (n <=? 57)) || ((65 <=? n) && (n <=? 90))
   || ((97 <=? n) && (n <=? 122)))%nat.

(** The characters that start an operator of the pattern language. *)
Definition isMeta (c : ascii) : bool :=
  existsb (Ascii.eqb c)
    ["\"; "."; "+"; "*"; "?"; "("; ")"; "|"; "["; "]"; "{"; "}"; "^"; "$"]%char.

Definition isASCII (c : ascii) : bool := (nat_of_ascii c <? 128)%nat.

(** What the parser says about a pattern.  The modelled patterns are the
    sequences of items [atom] or [atom*], where an atom is an ASCII
    character that is no operator, a backslash followed by an ASCII
    character that is neither a letter nor a digit, or a dot that carries a
    star.  On these patterns a matcher that steps by byte and Go's, which
    steps by rune, agree on every subject string.  Every other pattern
    (classes, groups, alternation, [+], [?], anchors, a dot that matches a
    single rune, non-ASCII literals) is [Outside]. *)
Inductive Parsed : Type :=
| Tree (re : Syntax)
| Invalid (code : ErrorCode)
| Outside.

(** [parseItems acc last p]: [acc] is the concatenation of the items that
    are complete, [last] the item on top of the parser's stack with the flag
    that tells whether it already carries a repetition. *)
Fixpoint parseItems (acc : Syntax) (last : option (Syntax * bool)) (p : list ascii)
  : Parsed :=
  let push (acc : Syntax) (last : option (Syntax * bool)) : Syntax :=
    match last with
    | Some (item, _) => OpConcat acc item
    | None => acc
    end in
  match p with
  | [] =>
      match last with
      | Some (OpAnyCharNotNL, false) => Outside
      | _ => Tree (push acc last)
      end
  | c :: rest =>
      if Ascii.eqb c "*" then
        match last with
        | None => Invalid ErrMissingRepeatArgument
        | Some (_, true) => Invalid ErrInvalidRepeatOp
        | Some (item, false) => parseItems acc (Some (OpStar item, true)) rest
        end
      else
        match last with
        | Some (OpAnyCharNotNL, false) => Outside
        | _ =>
            if Ascii.eqb c "\" then
              match rest with
              | [] => Invalid ErrTrailingBackslash
              | d :: rest' =>
                  if isASCII d && negb (isalnum d)
                  then parseItems (push acc last) (Some (OpLiteral d, false)) rest'
                  else Outside
              end
            else if Ascii.eqb c "." then
              parseItems (push acc last) (Some (OpAnyCharNotNL, false)) rest
            else if isMeta c || negb (isASCII c) then Outside
            else parseItems (push acc last) (Some (OpLiteral c, false)) rest
        end
  end.

Definition parse (pattern : string) : Parsed :=
  parseItems OpEmptyMatch None (list_ascii_of_string pattern).

(** *** Matching, by derivatives *)

Fixpoint nullable (re : Syntax) : bool :=
  match re with
  | OpNoMatch | OpLiteral _ | OpAnyCharNotNL => false
  | OpEmptyMatch | OpStar _ => true
  | OpConcat a b => nullable a && nullable b
  | OpAlternate a b => nullable a || nullable b
  end.

Definition newline : ascii := "010"%char.

Fixpoint derive (c : ascii) (re : Syntax) : Syntax :=
  match re with
  | OpNoMatch | OpEmptyMatch => OpNoMatch
  | OpLiteral d => if Ascii.eqb c d then OpEmptyMatch else OpNoMatch
  | OpAnyCharNotNL => if Ascii.eqb c newline then OpNoMatch else OpEmptyMatch
  | OpConcat a b =>
      if nullable a
      then OpAlternate (OpConcat (derive c a) b) (derive c b)
      else OpConcat (derive c a) b
  | OpAlternate a b => OpAlternate (derive c a) (derive c b)
  | OpStar a => OpConcat (derive c a) (OpStar a)
  end.

(** Some prefix of [s] is matched by [re]. *)
Fixpoint matchPrefix (re : Syntax) (s : list ascii) : bool :=
  nullable re ||
  match s with
  | [] => false
  | c :: rest => matchPrefix (derive c re) rest
  end.

(** [re] matches somewhere in [s]: the search of an unanchored pattern. *)
Fixpoint search (re : Syntax) (s : list ascii) : bool :=
  matchPrefix re s ||
  match s with
  | [] => false
  | _ :: rest => search re rest
  end.

(** [re] matches the whole of [s]. *)
Fixpoint matchWhole (re : Syntax) (s : list ascii) : bool :=
  match s with
  | [] => nullable re
  | c :: rest => matchWhole (derive c re) rest
  end.

(** A compiled [*regexp.Regexp]: the program of a modelled pattern, or, for
    a pattern outside the model, the matcher that the package returns for
    it. *)
Inductive Regexp : Type :=
| Program (re : Syntax)
| Foreign (matcher : string -> bool).

(** The package's behaviour on the patterns outside the model: an error or
    a matcher. *)
Definition ForeignCompile : Type := string -> (string -> bool) + string.

Inductive CompileError : Type :=
| SyntaxError (code : ErrorCode)
| ForeignError (msg : string).

(** [regexp.Compile]. *)
Definition Compile (foreign : ForeignCompile) (expr : string)
  : Regexp + CompileError :=
  match parse expr with
  | Tree re => inl (Program re)
  | Invalid code => inr (SyntaxError code)
  | Outside =>
      match foreign expr with
      | inl matcher => inl (Foreign matcher)
      | inr msg => inr (ForeignError msg)
      end
  end.

(** The method [MatchString] of a compiled regexp: whether the string contains any match. *)
Definition MatchString (re : Regexp) (s : string) : bool :=
  match re with
  | Program p => search p (list_ascii_of_string s)
  | Foreign matcher => matcher s
  end.

(** The language of a syntax tree. *)
Inductive Matches : Syntax -> list ascii -> Prop :=
| MEmpty : Matches OpEmptyMatch []
| MLiteral c : Matches (OpLiteral c) [c]
| MAny c : c <> newline -> Matches OpAnyCharNotNL [c]
| MConcat a b s t : Matches a s -> Matches b t -> Matches (OpConcat a b) (s ++ t)
| MAltL a b s : Matches a s -> Matches (OpAlternate a b) s
| MAltR a b s : Matches b s -> Matches (OpAlternate a b) s
| MStarNil a : Matches (OpStar a) []
| MStarApp a s t : Matches a s -> Matches (OpStar a) t -> Matches (OpStar a) (s ++ t).

End Regexp.

(** ** server/clients/cr.go and the provider interface of sqlite.go *)
Module Clients.

(** Instants and durations, in nanoseconds. *)
Definition Time : Type := Z.
Definition Duration : Type := Z.

(** What [json.Unmarshal] stores into an [interface{}].  A number is kept by
    the text [fmt.Sprint] prints for it, an object by its fields in the
    order in which [fmt] prints a map. *)
Inductive Value : Type :=
| VNil
| VBool (b : bool)
| VNumber (printed : string)
| VString (s : string)
| VArray (elems : list Value)
| VObject (fields : list (string * Value)).

(** [fmt.Sprint] of such a value. *)
Fixpoint Sprint (v : Value) : string :=
  match v with
  | VNil => "<nil>"
  | VBool b => if b then "true" else "false"
  | VNumber printed => printed
  | VString s => s
  | VArray elems => "[" +:+ joinWith " " (map Sprint elems) +:+ "]"
  | VObject fields =>
      "map[" +:+ joinWith " " (map (fun kv => let '(k, x) := kv in
                                             k +:+ ":" +:+ Sprint x) fields)
      +:+ "]"
  end.

(** [Client] is declared in client.go, outside the modelled files.  The
    record has the fields that cr.go reads, and [Encoded], the outcome of
    [json.Marshal] followed by [json.Unmarshal] into a map, which is all
    that cr.go sees of the other fields. *)
Record Client : Type := {
  ID : string;
  ClientAuthID : string;
  DisconnectedAt : option Time;
  AllowedUserGroups : list string;
  Encoded : gmap string Value + string;
}.

(** Modelled from the spec: [Client.Obsolete] (client.go) is missing.  An
    agent is obsolete when [disconnected_at + keep_lost_clients < now]; with
    no [keep_lost_clients], or while the agent is connected, the comparison
    has no operands and the agent is not obsolete. *)
Definition Obsolete (c : Client) (duration : option Duration) (now : Time) : bool :=
  match duration, DisconnectedAt c with
  | Some d, Some t => (t + d <? now)%Z
  | _, _ => false
  end.

(** Modelled from the spec: [Client.HasAccess] (client.go) is missing.
    Listings are filtered by group membership: a user who is no
    administrator sees the agents one of whose [allowed_user_groups] is a
    group of the user. *)
Definition HasAccess (c : Client) (userGroups : list string) : bool :=
  existsb (fun g => existsb (String.eqb g) (AllowedUserGroups c)) userGroups.

(** The interface [User]: the results of its two methods. *)
Record User : Type := {
  IsAdmin : bool;
  GetGroups : list string;
}.

(** [query.FilterOption], with the two fields cr.go reads. *)
Record FilterOption : Type := {
  Column : string;
  Values : list string;
}.

(** The interface [ClientProvider] of sqlite.go, with the methods that the
    repository calls; a call returns the provider's next state and its
    error.  The clock that [SqliteProvider] reads is an argument. *)
Class ClientProvider (P : Type) : Type := {
  providerSave : P -> Client -> P * error;
  providerDeleteObsolete : P -> Time -> P * error;
  providerDelete : P -> string -> P * error;
}.

(** [SqliteProvider]: the table [clients], keyed by [id], and the errors
    that the database will answer the next statements with ([None]: the
    statement runs). *)
Record SqliteProvider : Type := {
  rows : gmap string Client;
  keepLostClients : Duration;
  faults : list error;
}.

Definition nextFault (p : SqliteProvider) : error * SqliteProvider :=
  match faults p with
  | [] => (None, p)
  | e :: rest =>
      (e, {| rows := rows p; keepLostClients := keepLostClients p; faults := rest |})
  end.

Definition withRows (p : SqliteProvider) (t : gmap string Client) : SqliteProvider :=
  {| rows := t; keepLostClients := keepLostClients p; faults := faults p |}.

(** [DATETIME] drops the fraction of a second. *)
Definition DATETIME (t : Time) : Z := (t / 1000000000)%Z.

Definition keepLostClientsStart (p : SqliteProvider) (now : Time) : Time :=
  (now - keepLostClients p)%Z.

(** The [WHERE] clause of [DeleteObsolete]. *)
Definition staleRow (start : Time) (row : Client) : bool :=
  match DisconnectedAt row with
  | Some t => (DATETIME t <? DATETIME start)%Z
  | None => false
  end.

Definition sqliteSave (p : SqliteProvider) (client : Client) : SqliteProvider * error :=
  match nextFault p with
  | (Some e, p') => (p', Some e)
  | (None, p') => (withRows p' (<[ID client := client]> (rows p')), None)
  end.

Definition sqliteDeleteObsolete (p : SqliteProvider) (now : Time)
  : SqliteProvider * error :=
  match nextFault p with
  | (Some e, p') => (p', Some e)
  | (None, p') =>
      (withRows p'
         (filter (fun kv => staleRow (keepLostClientsStart p now) kv.2 = false)
                 (rows p')),
       None)
  end.

Definition sqliteDelete (p : SqliteProvider) (id : string) : SqliteProvider * error :=
  match nextFault p with
  | (Some e, p') => (p', Some e)
  | (None, p') => (withRows p' (delete id (rows p')), None)
  end.

#[export] Instance SqliteProvider_ClientProvider : ClientProvider SqliteProvider := {
  providerSave := sqliteSave;
  providerDeleteObsolete := sqliteDeleteObsolete;
  providerDelete := sqliteDelete;
}.

(** [ClientRepository]: the cache, the retention period and the storage.
    The cache holds pointers in Go; no operation below writes through one,
    so the cache is a map to the clients themselves.  The mutex and the
    logger are left out. *)
Record ClientRepository (P : Type) : Type := {
  clients : gmap string Client;
  KeepLostClients : option Duration;
  provider : option P;
}.
Arguments clients {P} _.
Arguments KeepLostClients {P} _.
Arguments provider {P} _.

(** What an operation does to the storage and to the cache, in order. *)
Inductive Event : Type :=
| ProviderSave (client : Client)
| ProviderDelete (id : string)
| ProviderDeleteObsolete
| CacheStore (id : string) (client : Client)
| CacheDelete (id : string).

Section Repository.
Context {P : Type} `{ClientProvider P}.

(** The behaviour of package [regexp] on the patterns outside the model. *)
Variable foreign : Regexp.ForeignCompile.

Definition withClients (s : ClientRepository P) (cache : gmap string Client)
  : ClientRepository P :=
  {| clients := cache; KeepLostClients := KeepLostClients s; provider := provider s |}.

Definition withProvider (s : ClientRepository P) (p : P) : ClientRepository P :=
  {| clients := clients s; KeepLostClients := KeepLostClients s; provider := Some p |}.

Definition newClientRepositoryWithDB (initClients : list Client)
    (keepLostClients : option Duration) (provider : option P) : ClientRepository P :=
  {| clients := fold_left (fun cache c => <[ID c := c]> cache) initClients ∅;
     KeepLostClients := keepLostClients;
     provider := provider |}.

Definition NewClientRepository (initClients : list Client)
    (keepLostClients : option Duration) : ClientRepository P :=
  newClientRepositoryWithDB initClients keepLostClients None.

(** [for _, client := range s.clients]: the entries in some order.  No
    statement below depends on the order. *)
Definition rangeClients (s : ClientRepository P) : list Client :=
  (map_to_list (clients s)).*2.

Definition Save (s : ClientRepository P) (client : Client)
  : error * ClientRepository P * list Event :=
  let store (s : ClientRepository P) :=
    withClients s (<[ID client := client]> (clients s)) in
  match provider s with
  | Some p =>
      match providerSave p client with
      | (p', Some err) =>
          (Some ("failed to save a client: " +:+ err), withProvider s p',
           [ProviderSave client])
      | (p', None) =>
          (None, store (withProvider s p'),
           [ProviderSave client; CacheStore (ID client) client])
      end
  | None => (None, store s, [CacheStore (ID client) client])
  end.

Definition Delete (s : ClientRepository P) (client : Client)
  : error * ClientRepository P * list Event :=
  let remove (s : ClientRepository P) :=
    withClients s (delete (ID client) (clients s)) in
  match provider s with
  | Some p =>
      match providerDelete p (ID client) with
      | (p', Some err) =>
          (Some ("failed to delete a client: " +:+ err), withProvider s p',
           [ProviderDelete (ID client)])
      | (p', None) =>
          (None, remove (withProvider s p'),
           [ProviderDelete (ID client); CacheDelete (ID client)])
      end
  | None => (None, remove s, [CacheDelete (ID client)])
  end.

(** The loop of [DeleteObsolete] over the entries [order] of the map as it
    was when the loop started.  An entry that an earlier iteration has
    deleted is not produced. *)
Fixpoint deleteObsoleteRange (keep : option Duration) (now : Time)
    (order : list (string * Client)) (cache : gmap string Client)
    (deleted : list Client) : gmap string Client * list Client :=
  match order with
  | [] => (cache, deleted)
  | (key, _) :: rest =>
      match cache !! key with
      | Some client =>
          if Obsolete client keep now
          then deleteObsoleteRange keep now rest (delete (ID client) cache)
                                   (deleted ++ [client])
          else deleteObsoleteRange keep now rest cache deleted
      | None => deleteObsoleteRange keep now rest cache deleted
      end
  end.

Definition DeleteObsolete (s : ClientRepository P) (now : Time)
  : (list Client * error) * ClientRepository P * list Event :=
  let sweep (s : ClientRepository P) :=
    deleteObsoleteRange (KeepLostClients s) now (map_to_list (clients s))
                        (clients s) [] in
  match provider s with
  | Some p =>
      match providerDeleteObsolete p now with
      | (p', Some err) =>
          (([], Some ("failed to delete obsolete clients: " +:+ err)),
           withProvider s p', [ProviderDeleteObsolete])
      | (p', None) =>
          let '(cache, deleted) := sweep s in
          ((deleted, None), withClients (withProvider s p') cache,
           ProviderDeleteObsolete :: map (fun c => CacheDelete (ID c)) deleted)
      end
  | None =>
      let '(cache, deleted) := sweep s in
      ((deleted, None), withClients s cache,
       map (fun c => CacheDelete (ID c)) deleted)
  end.

Definition getNonObsolete (s : ClientRepository P) (now : Time)
  : list Client * error :=
  (filter (fun client => Obsolete client (KeepLostClients s) now = false)
          (rangeClients s),
   None).

Definition Count (s : ClientRepository P) (now : Time) : nat * error :=
  let '(clients, err) := getNonObsolete s now in
  (length clients, err).

Definition GetAllActive (s : ClientRepository P) : list Client :=
  filter (fun client => DisconnectedAt client = None) (rangeClients s).

Definition CountActive (s : ClientRepository P) : nat * error :=
  (length (GetAllActive s), None).

Definition CountDisconnected (s : ClientRepository P) (now : Time) : nat * error :=
  match getNonObsolete s now with
  | (_, Some err) => (0, Some err)
  | (all, None) =>
      (length (filter (fun cur => DisconnectedAt cur <> None) all), None)
  end.

Definition GetByID (s : ClientRepository P) (id : string) (now : Time)
  : option Client * error :=
  match clients s !! id with
  | Some client =>
      if Obsolete client (KeepLostClients s) now then (None, None)
      else (Some client, None)
  | None => (None, None)
  end.

Definition GetActiveByID (s : ClientRepository P) (id : string)
  : option Client * error :=
  match clients s !! id with
  | Some client =>
      match DisconnectedAt client with
      | Some _ => (None, None)
      | None => (Some client, None)
      end
  | None => (None, None)
  end.

Definition GetAll (s : ClientRepository P) (now : Time) : list Client * error :=
  getNonObsolete s now.

Definition GetAllByClientAuthID (s : ClientRepository P) (clientAuthID : string)
    (now : Time) : list Client :=
  let '(all, _) := GetAll s now in
  filter (fun v => ClientAuthID v = clientAuthID) all.

Definition clientToMap (cl : Client) : gmap string Value * error :=
  match Encoded cl with
  | inl res => (res, None)
  | inr err => (∅, Some err)
  end.

(** [regx.MatchString(filterValue)] for [regx], the pattern that is
    written down in [clientMatchesFilter]: a character other than a
    backslash, followed by one or more stars.  It matches the strings in
    which some [*] comes directly after a byte that is no backslash. *)
Fixpoint hasUnescapedWildCard (filterValue : string) : bool :=
  match filterValue with
  | String c (String d _ as rest) =>
      (negb (Ascii.eqb c "\") && Ascii.eqb d "*") || hasUnescapedWildCard rest
  | _ => false
  end.

(** The loop [for _, filterValue := range filter.Values]. *)
Fixpoint rangeFilterValues (clientFieldValueToMatchStr : string)
    (values : list string) : bool :=
  match values with
  | [] => false
  | filterValue :: rest =>
      if negb (hasUnescapedWildCard filterValue) then
        if String.eqb filterValue clientFieldValueToMatchStr then true
        else rangeFilterValues clientFieldValueToMatchStr rest
      else
        match Regexp.Compile foreign (Strings.ReplaceAll filterValue "*" ".*") with
        | inr _ =>
            if String.eqb filterValue clientFieldValueToMatchStr then true
            else rangeFilterValues clientFieldValueToMatchStr rest
        | inl filterValueRegex =>
            if Regexp.MatchString filterValueRegex clientFieldValueToMatchStr
            then true
            else rangeFilterValues clientFieldValueToMatchStr rest
        end
  end.

Definition clientMatchesFilter (cl : Client) (filter : FilterOption)
  : bool * error :=
  match clientToMap cl with
  | (_, Some err) => (false, Some err)
  | (clientMap, None) =>
      match clientMap !! Column filter with
      | None => (false, Some ("unsupported filter column: " +:+ Column filter))
      | Some clientFieldValueToMatch =>
          (rangeFilterValues (Sprint clientFieldValueToMatch) (Values filter), None)
      end
  end.

Fixpoint clientMatchesFilters (cl : Client) (filterOptions : list FilterOption)
  : bool * error :=
  match filterOptions with
  | [] => (true, None)
  | f :: rest =>
      match clientMatchesFilter cl f with
      | (_, Some err) => (false, Some err)
      | (false, None) => (false, None)
      | (true, None) => clientMatchesFilters cl rest
      end
  end.

(** The loop of [getNonObsoleteFiltered], with [result] as it grows. *)
Fixpoint filterRange (keep : option Duration) (now : Time) (user : User)
    (filterOptions : list FilterOption) (order : list Client)
    (result : list Client) : list Client * error :=
  match order with
  | [] => (result, None)
  | client :: rest =>
      if Obsolete client keep now then
        filterRange keep now user filterOptions rest result
      else if negb (IsAdmin user) && negb (HasAccess client (GetGroups user)) then
        filterRange keep now user filterOptions rest result
      else
        match clientMatchesFilters client filterOptions with
        | (_, Some err) => (result, Some err)
        | (true, None) =>
            filterRange keep now user filterOptions rest (result ++ [client])
        | (false, None) => filterRange keep now user filterOptions rest result
        end
  end.

Definition getNonObsoleteFiltered (s : ClientRepository P) (user : User)
    (filterOptions : list FilterOption) (now : Time) : list Client * error :=
  filterRange (KeepLostClients s) now user filterOptions (rangeClients s) [].

Definition GetUserClients (s : ClientRepository P) (user : User)
    (filterOptions : list FilterOption) (now : Time) : list Client * error :=
  getNonObsoleteFiltered s user filterOptions now.

End Repository.

(** The filter values all of whose stars are escaped: every [*] comes
    directly after a backslash. *)
Definition everyStarEscaped (filterValue : string) : Prop :=
  forall i, String.get i filterValue = Some "*"%char ->
            exists j, i = S j /\ String.get j filterValue = Some "\"%char.

(** The reads of [s'] return what the reads of [s] return.  A list that a
    read collects in a loop over the map comes in the order of that loop,
    which Go leaves open and which differs from one loop to the next: two
    lists are compared up to their order.  [GetUserClients] stops at the
    first error, so that what it returns with an error depends on the
    order; the two calls are compared in whether they return an error, and in
    their clients when they return none. *)
Definition sameReads {P : Type} (s s' : ClientRepository P) : Prop :=
  forall (foreign : Regexp.ForeignCompile) (now : Time) (id : string)
         (user : User) (filterOptions : list FilterOption),
    GetByID s' id now = GetByID s id now
    /\ GetActiveByID s' id = GetActiveByID s id
    /\ (GetAll s' now).1 ≡ₚ (GetAll s now).1
    /\ (GetAll s' now).2 = (GetAll s now).2
    /\ GetAllActive s' ≡ₚ GetAllActive s
    /\ GetAllByClientAuthID s' id now ≡ₚ GetAllByClientAuthID s id now
    /\ ((GetUserClients foreign s' user filterOptions now).2 = None
        <-> (GetUserClients foreign s user filterOptions now).2 = None)
    /\ ((GetUserClients foreign s user filterOptions now).2 = None ->
        (GetUserClients foreign s' user filterOptions now).1
        ≡ₚ (GetUserClients foreign s user filterOptions now).1)
    /\ Count s' now = Count s now
    /\ CountActive s' = CountActive s
    /\ CountDisconnected s' now = CountDisconnected s now.

(** Every client of the cache is stored under its own id, as
    [newClientRepositoryWithDB] and [Save] store it. *)
Definition keyedByID (cache : gmap string Client) : Prop :=
  forall key client, cache !! key = Some client -> ID client = key.

End Clients.

(** ** Values for the examples *)
Module Fixtures.
Import Clients.

Definition hour : Duration := 3600000000000%Z.
Definition minute : Duration := 60000000000%Z.

(** A client of which only the name is encoded. *)
Definition named (id name : string) (disconnectedAt : option Time) : Client :=
  {| ID := id; ClientAuthID := "user1"; DisconnectedAt := disconnectedAt;
     AllowedUserGroups := [];
     Encoded := inl {[ "id" := VString id; "name" := VString name ]} |}.

(** No pattern outside the model compiles. *)
Definition noForeign : Regexp.ForeignCompile :=
  fun _ => inr "pattern outside the model".

(** A database that answers its first statement with an error. *)
Definition flaky (table : gmap string Client) : SqliteProvider :=
  {| rows := table; keepLostClients := hour; faults := [Some "database is locked"] |}.

(** A client that was lost two hours before the instant [later], and an
    active one, in a repository that keeps lost clients for an hour. *)
Definition later : Time := (3 * hour)%Z.
Definition lost : Client := named "c1" "host-1" (Some hour).
Definition active : Client := named "c2" "host-2" None.

Definition cached (p : option SqliteProvider) : ClientRepository SqliteProvider :=
  newClientRepositoryWithDB [lost; active] (Some hour) p.

End Fixtures.

(** ** Package comm: requests over the client's connection *)
Module Comm.

(** The errors of [SendRequestAndGetResponse]: a [*ClientError], or any other
    error. *)
Inductive Error : Type :=
| PlainError (msg : string)
| ClientError (msg : string).

Definition errorString (e : Error) : string :=
  match e with
  | PlainError msg => msg
  | ClientError msg => msg
  end.

(** [ssh.Conn], as far as [SendRequest(name, wantReply, payload)] goes: the
    reply [(ok, respBytes, err)]. *)
Record Conn : Type := {
  SendRequest : string -> bool -> string -> bool * string * error;
}.

Section Codec.
Context {Req Resp : Type}.

(** [json.Marshal] of the request, [json.Unmarshal] into the destination, and
    what [%T] prints for the two. *)
Variable marshal : Req -> string + string.
Variable unmarshal : string -> Resp + string.
Variable reqT respT : string.

(** [successRespDest] is [None] for a nil destination; the result is the
    destination after the call, and the error. *)
Definition SendRequestAndGetResponse (conn : Conn) (reqType : string) (req : Req)
    (successRespDest : option Resp) : option Resp * option Error :=
  match marshal req with
  | inr err =>
      (successRespDest,
       Some (PlainError ("failed to encode request " +:+ reqT +:+ ": " +:+ err)))
  | inl reqBytes =>
      match SendRequest conn reqType true reqBytes with
      | (_, _, Some err) =>
          (successRespDest, Some (PlainError ("failed to send request: " +:+ err)))
      | (false, respBytes, None) =>
          (successRespDest, Some (ClientError ("client error: " +:+ respBytes)))
      | (true, respBytes, None) =>
          match successRespDest with
          | None => (None, None)
          | Some _ =>
              match unmarshal respBytes with
              | inr err =>
                  (successRespDest,
                   Some (ClientError
                           ("invalid client response format: failed to decode response into "
                            +:+ respT +:+ ": " +:+ err)))
              | inl resp => (Some resp, None)
              end
          end
      end
  end.

End Codec.

End Comm.

(** ** The answers of the REST API *)
Module API.

(** The error codes that the tests name.  They are constants of api.go; the
    tests give their names, not their values. *)
Inductive ErrCode : Type :=
| NoCode
| ErrCodeInvalidRequest
| ErrCodeClientAuthNotFound
| ErrCodeClientAuthHasClient
| ErrCodeClientAuthRO
| ErrCodeClientAuthSingleClient.

(** The body of an answer: nothing, the id of a new job, or the error payload
    [{code, title, detail}]. *)
Inductive Payload : Type :=
| Empty
| Data (jid : string)
| Failure (code : ErrCode) (title detail : string).

Record Response : Type := {
  StatusCode : nat;
  Body : Payload;
}.

(** [%q] of a string without characters to escape. *)
Definition quoted (s : string) : string :=
  String "034" (s +:+ String "034" EmptyString).

End API.

(** ** Jobs: the execution of commands on clients

    The handlers of the API (api.go) and the job provider are outside the
    modelled files; [server/api_test.go] exercises them.  The module follows
    section 4.5 of the specification. *)
Module Jobs.
Import Clients API.

Inductive JobStatus : Type :=
| JobStatusRunning
| JobStatusSuccessful
| JobStatusFailed
| JobStatusUnknown.

#[export] Instance JobStatus_eq_dec : EqDecision JobStatus.
Proof. solve_decision. Defined.

(** [comm.RunCmdResponse]. *)
Record RunCmdResponse : Type := {
  Pid : Z;
  StartedAt : Time;
}.

(** [models.Job], with the fields of the specification's data model that the
    dispatch reads or writes. *)
Record Job : Type := {
  JID : string;
  MultiJobID : option string;
  ClientID : string;
  Command : string;
  Interpreter : string;
  CreatedBy : string;
  TimeoutSec : Z;
  Status : JobStatus;
  PID : option Z;
  JobStartedAt : option Time;
  Error : string;
}.

Definition markFailed (job : Job) (err : string) : Job :=
  {| JID := JID job; MultiJobID := MultiJobID job; ClientID := ClientID job;
     Command := Command job; Interpreter := Interpreter job;
     CreatedBy := CreatedBy job; TimeoutSec := TimeoutSec job;
     Status := JobStatusFailed; PID := PID job; JobStartedAt := JobStartedAt job;
     Error := err |}.

Definition markStarted (job : Job) (resp : RunCmdResponse) : Job :=
  {| JID := JID job; MultiJobID := MultiJobID job; ClientID := ClientID job;
     Command := Command job; Interpreter := Interpreter job;
     CreatedBy := CreatedBy job; TimeoutSec := TimeoutSec job;
     Status := JobStatusRunning; PID := Some (Pid resp);
     JobStartedAt := Some (StartedAt resp); Error := Error job |}.

Definition withStatus (job : Job) (status : JobStatus) : Job :=
  {| JID := JID job; MultiJobID := MultiJobID job; ClientID := ClientID job;
     Command := Command job; Interpreter := Interpreter job;
     CreatedBy := CreatedBy job; TimeoutSec := TimeoutSec job;
     Status := status; PID := PID job; JobStartedAt := JobStartedAt job;
     Error := Error job |}.

(** The body of [POST /api/v1/commands]. *)
Record MultiJobRequest : Type := {
  ClientIDs : list string;
  ReqCommand : string;
  ReqInterpreter : string;
  ReqTimeoutSec : Z;
  ExecuteConcurrently : bool;
  AbortOnError : bool;
}.

(** What the handlers change: the rows of the job table in the order of their
    insertion, the number of job ids handed out, and the clients that
    [run_cmd] was sent to, in order. *)
Record World : Type := {
  rows : list Job;
  issued : nat;
  sent : list string;
}.

(** State passing, with the notation [let* x := m in k]. *)
Definition M (A : Type) : Type := World -> A * World.

Definition ret {A : Type} (a : A) : M A := fun w => (a, w).

Definition bind {A B : Type} (m : M A) (k : A -> M B) : M B :=
  fun w => let '(a, w') := m w in k a w'.

Notation "'let*' x ':=' m 'in' k" := (bind m (fun x => k))
  (at level 10, x pattern, m at level 100, k at level 200).

(** Modelled from the spec: the job provider is missing.  A Job row is
    persisted under its [jid]: [SaveJob] replaces the row of that [jid] or
    adds one. *)
Fixpoint upsert (job : Job) (table : list Job) : list Job :=
  match table with
  | [] => [job]
  | row :: rest =>
      if String.eqb (JID row) (JID job) then job :: rest
      else row :: upsert job rest
  end.

Definition SaveJob (job : Job) : M unit :=
  fun w => (tt, {| rows := upsert job (rows w); issued := issued w; sent := sent w |}).

Definition GetByJID (w : World) (jid : string) : option Job :=
  find (fun row => String.eqb (JID row) jid) (rows w).

(** Modelled from the spec: [GetMultiJob] of the job provider is missing.
    The jobs of a multi-client job, in the order of their rows. *)
Definition GetMultiJob (w : World) (jid : string) : list Job :=
  filter (fun row => MultiJobID row = Some jid) (rows w).

Section Server.

(** The uuid that the [n]-th call of [generateNewJobID] returns. *)
Variable generateNewJobID : nat -> string.

(** The connection of each client, and the status that the [cmd_result] of
    the client reports for a command that it has started, [JobStatusUnknown]
    when it never reports within [timeout_sec]. *)
Variable connOf : string -> Comm.Conn.
Variable finishes : string -> JobStatus.

(** The JSON encodings of the [run_cmd] payload and of its reply. *)
Variable encodeJob : Job -> string.
Variable decodeResponse : string -> RunCmdResponse + string.

(** Sending over the connection fails with [err], whatever is sent. *)
Definition sendFails (conn : Comm.Conn) (err : string) : Prop :=
  forall name wantReply payload,
    (Comm.SendRequest conn name wantReply payload).2 = Some err.

(** The client answers [run_cmd] with a well-formed success response. *)
Definition starts (conn : Comm.Conn) : Prop :=
  forall payload, exists respBytes resp,
    Comm.SendRequest conn "run_cmd" true payload = (true, respBytes, None)
    /\ decodeResponse respBytes = inl resp.

(** The ids still to be handed out are new to the job table, and differ from
    each other. *)
Definition freshIDs (w : World) : Prop :=
  (forall n m, generateNewJobID n = generateNewJobID m -> n = m)
  /\ (forall row n, row ∈ rows w -> issued w <= n ->
        JID row <> generateNewJobID n
        /\ MultiJobID row <> Some (generateNewJobID n)).

(** Every job of the multi-client job [jid] whose client's connection fails
    to send is failed, with the dispatch error. *)
Definition failedWhereSendFails (jid : string) (w : World) : Prop :=
  forall row err,
    row ∈ rows w -> MultiJobID row = Some jid ->
    sendFails (connOf (ClientID row)) err ->
    Status row = JobStatusFailed
    /\ Error row = "failed to send request: " +:+ err.

Definition newJID : M string :=
  fun w => (generateNewJobID (issued w),
            {| rows := rows w; issued := S (issued w); sent := sent w |}).

(** The request [run_cmd] for [job] over the connection of its client, and
    its outcome. *)
Definition dispatch (job : Job) : option RunCmdResponse * option Comm.Error :=
  Comm.SendRequestAndGetResponse (fun j => inl (encodeJob j)) decodeResponse
    "models.Job" "*comm.RunCmdResponse"
    (connOf (ClientID job)) "run_cmd" job (Some {| Pid := 0; StartedAt := 0%Z |}).

(** The dispatch to the client fails, whatever the job: the request is not
    sent, or the client refuses it, or its answer is malformed. *)
Definition dispatchFails (clientID : string) : Prop :=
  forall job, ClientID job = clientID -> (dispatch job).2 <> None.

Definition sendRunCmd (job : Job) : M (option RunCmdResponse * option Comm.Error) :=
  fun w =>
    (dispatch job,
     {| rows := rows w; issued := issued w; sent := sent w ++ [ClientID job] |}).

(** Modelled from the spec: [createAndRunJob] (api.go) is missing.  For a
    job of the multi-client job [multiJobID]: "The server assigns a fresh
    uuid jid, persists a running Job row, then issues run_cmd.  If dispatch
    fails, Job becomes failed with the dispatch error."  The result tells
    whether the dispatch succeeded, with the job as it is stored. *)
Definition createAndRunJob (multiJobID : string) (req : MultiJobRequest)
    (createdBy clientID : string) : M (bool * Job) :=
  let* jid := newJID in
  let job := {| JID := jid; MultiJobID := Some multiJobID; ClientID := clientID;
                Command := ReqCommand req; Interpreter := ReqInterpreter req;
                CreatedBy := createdBy; TimeoutSec := ReqTimeoutSec req;
                Status := JobStatusRunning; PID := None; JobStartedAt := None;
                Error := EmptyString |} in
  let* _ := SaveJob job in
  let* reply := sendRunCmd job in
  match reply with
  | (_, Some err) =>
      let failed := markFailed job (Comm.errorString err) in
      let* _ := SaveJob failed in ret (false, failed)
  | (Some resp, None) =>
      let started := markStarted job resp in
      let* _ := SaveJob started in ret (true, started)
  | (None, None) => ret (true, job)
  end.

(** Modelled from the spec: the receipt of [cmd_result] (api.go) is missing.
    The job is "updated once agent sends completion RPC or timeout fires";
    without a [cmd_result] within [timeout_sec] its status is unknown. *)
Definition awaitResult (job : Job) : M JobStatus :=
  let status := finishes (ClientID job) in
  let* _ := SaveJob (withStatus job status) in ret status.

(** Modelled from the spec: [executeMultiClientJob] (api.go) is missing, in
    its sequential mode: one client after the other, and "sequential mode
    stops at first non-success when abort_on_error=true". *)
Fixpoint executeSequentially (jid : string) (req : MultiJobRequest)
    (createdBy : string) (orderedClients : list string) : M unit :=
  match orderedClients with
  | [] => ret tt
  | clientID :: rest =>
      let* started := createAndRunJob jid req createdBy clientID in
      let '(success, job) := started in
      if success then
        let* status := awaitResult job in
        if AbortOnError req && negb (bool_decide (status = JobStatusSuccessful))
        then ret tt
        else executeSequentially jid req createdBy rest
      else if AbortOnError req then ret tt
      else executeSequentially jid req createdBy rest
  end.

(** Modelled from the spec: the concurrent mode of [executeMultiClientJob]:
    every client gets its job, and no result is awaited.  The dispatches are
    taken in the order of the clients. *)
Fixpoint executeConcurrently (jid : string) (req : MultiJobRequest)
    (createdBy : string) (orderedClients : list string) : M unit :=
  match orderedClients with
  | [] => ret tt
  | clientID :: rest =>
      let* _ := createAndRunJob jid req createdBy clientID in
      executeConcurrently jid req createdBy rest
  end.

Definition executeMultiClientJob (jid : string) (req : MultiJobRequest)
    (createdBy : string) (orderedClients : list string) : M unit :=
  if ExecuteConcurrently req
  then executeConcurrently jid req createdBy orderedClients
  else executeSequentially jid req createdBy orderedClients.

(** Modelled from the spec: the lookup of the clients of a request (api.go)
    is missing.  A client that the registry does not know is not found
    (404), a disconnected one is a malformed request (400); the titles are
    those of [TestHandlePostMultiClientCommand]. *)
Fixpoint checkClients {P : Type} (repo : ClientRepository P) (now : Time)
    (ids : list string) : option Response :=
  match ids with
  | [] => None
  | cid :: rest =>
      match GetByID repo cid now with
      | (None, _) =>
          Some {| StatusCode := 404;
                  Body := Failure NoCode
                            ("Client with id=" +:+ quoted cid +:+ " not found.")
                            EmptyString |}
      | (Some client, _) =>
          match DisconnectedAt client with
          | Some _ =>
              Some {| StatusCode := 400;
                      Body := Failure NoCode
                                ("Client with id=" +:+ quoted cid +:+ " is not active.")
                                EmptyString |}
          | None => checkClients repo now rest
          end
      end
  end.

(** Modelled from the spec: the validation of [POST /api/v1/commands]
    (api.go) is missing.  Malformed parameters and unknown interpreters are
    answered with 4xx, with the titles of [TestHandlePostCommand] and
    [TestHandlePostMultiClientCommand]; [None] when the request is in
    order. *)
Definition validateMultiJobRequest {P : Type} (repo : ClientRepository P)
    (now : Time) (req : MultiJobRequest) : option Response :=
  if String.eqb (ReqCommand req) EmptyString then
    Some {| StatusCode := 400; Body := Failure NoCode "Command cannot be empty." EmptyString |}
  else
    match Validation.ValidateInterpreter (ReqInterpreter req) false with
    | Some err =>
        Some {| StatusCode := 400; Body := Failure NoCode "Invalid interpreter." err |}
    | None =>
        if (length (ClientIDs req) <? 2)%nat then
          Some {| StatusCode := 400;
                  Body := Failure NoCode "At least 2 clients should be specified." EmptyString |}
        else checkClients repo now (ClientIDs req)
    end.

(** Modelled from the spec: [handlePostMultiClientCommand] (api.go) is
    missing.  [POST /api/v1/commands] answers a request that is in order
    with the id of the multi-client job and executes the job after the
    answer; the world of the result is the one in which the execution has
    finished. *)
Definition handlePostMultiClientCommand {P : Type} (repo : ClientRepository P)
    (now : Time) (curUser : string) (req : MultiJobRequest) : M Response :=
  match validateMultiJobRequest repo now req with
  | Some refusal => ret refusal
  | None =>
      let* jid := newJID in
      let answer := {| StatusCode := 200; Body := Data jid |} in
      let* _ := executeMultiClientJob jid req curUser (ClientIDs req) in
      ret answer
  end.

End Server.

End Jobs.

(** ** ClientAuth: the credentials of the clients, and their deletion

    The package [clientsauth] and the handler of
    [DELETE /api/v1/clients-auth/{id}] (api.go) are outside the modelled
    files; [TestHandleDeleteClient] exercises them. *)
Module ClientsAuth.
Import Clients API.

Record ClientAuth : Type := {
  ID : string;
  Password : string;
}.

(** Modelled from the spec: the providers of package [clientsauth] are
    missing.  A ClientAuth store is "read-only when auth comes from static
    config", the single credential of [server.auth], and read-write when it
    is backed by a file or table. *)
Inductive Provider : Type :=
| SingleProvider (auth : ClientAuth)
| StoreProvider (entries : list ClientAuth).

Definition GetAll (p : Provider) : list ClientAuth :=
  match p with
  | SingleProvider auth => [auth]
  | StoreProvider entries => entries
  end.

Definition Get (p : Provider) (id : string) : option ClientAuth :=
  find (fun auth => String.eqb (ID auth) id) (GetAll p).

Definition Delete (p : Provider) (id : string) : Provider :=
  match p with
  | SingleProvider auth => SingleProvider auth
  | StoreProvider entries =>
      StoreProvider (filter (fun auth => ID auth <> id) entries)
  end.

(** [strconv.ParseBool]. *)
Definition ParseBool (str : string) : option bool :=
  if existsb (String.eqb str) ["1"; "t"; "T"; "TRUE"; "true"; "True"] then Some true
  else if existsb (String.eqb str) ["0"; "f"; "F"; "FALSE"; "false"; "False"]
       then Some false
       else None.

Section Handler.
Context {P : Type} `{ClientProvider P}.

(** The forced deletion of the bound clients from the registry, up to the
    first one that the registry fails to delete. *)
Fixpoint forceDeleteAll (repo : ClientRepository P) (bound : list Client)
  : error * ClientRepository P :=
  match bound with
  | [] => (None, repo)
  | client :: rest =>
      match Clients.Delete repo client with
      | (Some err, repo', _) => (Some err, repo')
      | (None, repo', _) => forceDeleteAll repo' rest
      end
  end.

(** Modelled from the spec: [handleDeleteClientAuth] (api.go) is missing.
    The ClientAuth store is managed through the API "when auth_write
    enabled and backed by file/table" (405 otherwise); an unknown id is not
    found (404); a "ClientAuth still bound to agents" is a conflict (409);
    a persistence failure is internal (500).  The parameter [force], the
    status codes, the error codes and the titles are those of
    [TestHandleDeleteClient].  [force] is the empty string when the
    parameter is absent. *)
Definition handleDeleteClientAuth (authWrite : bool) (provider : Provider)
    (repo : ClientRepository P) (now : Time) (id force : string)
  : Response * Provider * ClientRepository P :=
  let refuse (status : nat) (code : ErrCode) (title detail : string) :=
    ({| StatusCode := status; Body := Failure code title detail |}, provider, repo) in
  if negb authWrite then
    refuse 405 ErrCodeClientAuthRO
           "Client authentication has been attached in read-only mode." EmptyString
  else
    match provider with
    | SingleProvider _ =>
        refuse 405 ErrCodeClientAuthSingleClient
               "Client authentication is enabled only for a single user." EmptyString
    | StoreProvider _ =>
        match (if String.eqb force EmptyString then Some false else ParseBool force) with
        | None =>
            refuse 400 ErrCodeInvalidRequest ("Invalid force param " +:+ force +:+ ".") EmptyString
        | Some forced =>
            match Get provider id with
            | None =>
                refuse 404 ErrCodeClientAuthNotFound
                       ("Client Auth with ID=" +:+ quoted id +:+ " not found.") EmptyString
            | Some _ =>
                let bound := GetAllByClientAuthID repo id now in
                if negb forced && (0 <? length bound)%nat then
                  refuse 409 ErrCodeClientAuthHasClient
                         ("Client Auth expected to have no active or disconnected bound client(s), got "
                          +:+ pretty (length bound) +:+ ".") EmptyString
                else
                  match forceDeleteAll repo bound with
                  | (Some err, repo') =>
                      ({| StatusCode := 500;
                          Body := Failure NoCode EmptyString err |},
                       provider, repo')
                  | (None, repo') =>
                      ({| StatusCode := 204; Body := Empty |}, Delete provider id, repo')
                  end
            end
        end
    end.

End Handler.

End ClientsAuth.

Module JobFixtures.
Import Clients Jobs Fixtures.

Definition client1 : Client := named "client-1" "host-1" None.
Definition client2 : Client := named "client-2" "host-2" None.

Definition registry : ClientRepository SqliteProvider :=
  newClientRepositoryWithDB [client1; client2] (Some hour) None.

(** The connection of [client-1] fails to send, as the one of the case
    "error on send request" of [TestHandlePostMultiClientCommand]; the other
    connections answer. *)
Definition connections (id : string) : Comm.Conn :=
  if String.eqb id "client-1"
  then {| Comm.SendRequest := fun _ _ _ => (false, EmptyString, Some "send fake error") |}
  else {| Comm.SendRequest := fun _ _ _ => (true, "{}", None) |}.

Definition uuid (n : nat) : string := "jid-" +:+ pretty n.

Definition decode (respBytes : string) : RunCmdResponse + string :=
  inl {| Pid := 1; StartedAt := 0%Z |}.

Definition allSucceed (id : string) : JobStatus := JobStatusSuccessful.

Definition request (ids : list string) (abortOnError : bool) : MultiJobRequest :=
  {| ClientIDs := ids; ReqCommand := "/bin/date;foo;whoami"; ReqInterpreter := EmptyString;
     ReqTimeoutSec := 30; ExecuteConcurrently := false; AbortOnError := abortOnError |}.

Definition noJobs : World := {| rows := []; issued := 0; sent := [] |}.

End JobFixtures.

(** ** Sequences of operations on the repository *)
Module Runs.
Import Clients.

(** The operations that change the repository. *)
Inductive Op : Type :=
| OpSave (client : Client)
| OpDelete (client : Client)
| OpDeleteObsolete (now : Time).

Section Run.
Context {P : Type} `{ClientProvider P}.

(** The repository after an operation, whatever the operation returns. *)
Definition step (s : ClientRepository P) (op : Op) : ClientRepository P :=
  match op with
  | OpSave client => (Save s client).1.2
  | OpDelete client => (Clients.Delete s client).1.2
  | OpDeleteObsolete now => (DeleteObsolete s now).1.2
  end.

Definition run (ops : list Op) (s : ClientRepository P) : ClientRepository P :=
  fold_left step ops s.

End Run.

End Runs.

(** ** What a user sees of a client *)
Module Views.
Import Clients.

(** The client passes the two guards of the loop of
    [getNonObsoleteFiltered]: it is not obsolete, and the user is an
    administrator or has access to it. *)
Definition visible (keep : option Duration) (now : Time) (user : User)
    (client : Client) : bool :=
  negb (Obsolete client keep now)
  && (IsAdmin user || HasAccess client (GetGroups user)).

(** The client is visible and matches the filters. *)
Definition shown (foreign : Regexp.ForeignCompile) (keep : option Duration)
    (now : Time) (user : User) (filterOptions : list FilterOption)
    (client : Client) : bool :=
  visible keep now user client
  && (clientMatchesFilters foreign client filterOptions).1.

End Views.

(** ** server/clients/sqlite.go: rows and clients *)
Module Sqlite.

(** The zero [time.Time], January 1 of the year 1, in nanoseconds from the
    epoch of Unix. *)
Definition zeroTime : Clients.Time := (-62135596800 * 1000000000)%Z.

(** [sql.NullTime]. *)
Record NullTime : Type := {
  Time : Clients.Time;
  Valid : bool;
}.

Set Implicit Arguments.

(** [clientDetails].  [Tunnel] and [UpdatesStatus] stand for the types
    [Tunnel] and [models.UpdatesStatus] that the fields of these names point
    to; sqlite.go copies the pointers. *)
Module Details.
Record clientDetails (Tunnel UpdatesStatus : Type) : Type := {
  NumCPUs : Z;
  MemoryTotal : Z;
  Name : string;
  OS : string;
  OSArch : string;
  OSFamily : string;
  OSKernel : string;
  OSFullName : string;
  OSVersion : string;
  OSVirtualizationSystem : string;
  OSVirtualizationRole : string;
  CPUFamily : string;
  CPUModel : string;
  CPUModelName : string;
  CPUVendor : string;
  Timezone : string;
  Hostname : string;
  Version : string;
  Address : string;
  IPv4 : list string;
  IPv6 : list string;
  Tags : list string;
  Tunnels : list Tunnel;
  AllowedUserGroups : list string;
  UpdatesStatus : option UpdatesStatus;
}.
End Details.

(** [clientSqlite]; [Details] is [None] for a nil pointer. *)
Module Row.
Record clientSqlite (Tunnel UpdatesStatus : Type) : Type := {
  ID : string;
  ClientAuthID : string;
  DisconnectedAt : NullTime;
  Details : option (Details.clientDetails Tunnel UpdatesStatus);
}.
End Row.

(** [Client], with the fields that sqlite.go reads in [convertToSqlite] and
    writes in [convert]. *)
Module Persisted.
Record Client (Tunnel UpdatesStatus : Type) : Type := {
  ID : string;
  ClientAuthID : string;
  DisconnectedAt : option Clients.Time;
  NumCPUs : Z;
  MemoryTotal : Z;
  Name : string;
  OS : string;
  OSArch : string;
  OSFamily : string;
  OSKernel : string;
  OSFullName : string;
  OSVersion : string;
  OSVirtualizationSystem : string;
  OSVirtualizationRole : string;
  CPUFamily : string;
  CPUModel : string;
  CPUModelName : string;
  CPUVendor : string;
  Timezone : string;
  Hostname : string;
  Version : string;
  Address : string;
  IPv4 : list string;
  IPv6 : list string;
  Tags : list string;
  Tunnels : list Tunnel;
  AllowedUserGroups : list string;
  UpdatesStatus : option UpdatesStatus;
}.
End Persisted.

Unset Implicit Arguments.

Section Convert.
Context {Tunnel UpdatesStatus : Type}.

Local Abbreviation Client := (Persisted.Client Tunnel UpdatesStatus).
Local Abbreviation clientSqlite := (Row.clientSqlite Tunnel UpdatesStatus).
Local Abbreviation clientDetails := (Details.clientDetails Tunnel UpdatesStatus).

(** [convertToSqlite]; a nil client gives a nil row. *)
Definition convertToSqlite (v : option Client) : option clientSqlite :=
  match v with
  | None => None
  | Some v =>
      Some {| Row.ID := Persisted.ID v;
              Row.ClientAuthID := Persisted.ClientAuthID v;
              Row.Details := Some {|
                Details.Name := Persisted.Name v;
                Details.OS := Persisted.OS v;
                Details.OSArch := Persisted.OSArch v;
                Details.OSFamily := Persisted.OSFamily v;
                Details.OSKernel := Persisted.OSKernel v;
                Details.Hostname := Persisted.Hostname v;
                Details.Version := Persisted.Version v;
                Details.Address := Persisted.Address v;
                Details.OSFullName := Persisted.OSFullName v;
                Details.OSVersion := Persisted.OSVersion v;
                Details.OSVirtualizationSystem := Persisted.OSVirtualizationSystem v;
                Details.OSVirtualizationRole := Persisted.OSVirtualizationRole v;
                Details.CPUFamily := Persisted.CPUFamily v;
                Details.CPUModel := Persisted.CPUModel v;
                Details.CPUModelName := Persisted.CPUModelName v;
                Details.CPUVendor := Persisted.CPUVendor v;
                Details.NumCPUs := Persisted.NumCPUs v;
                Details.MemoryTotal := Persisted.MemoryTotal v;
                Details.Timezone := Persisted.Timezone v;
                Details.IPv4 := Persisted.IPv4 v;
                Details.IPv6 := Persisted.IPv6 v;
                Details.Tags := Persisted.Tags v;
                Details.Tunnels := Persisted.Tunnels v;
                Details.AllowedUserGroups := Persisted.AllowedUserGroups v;
                Details.UpdatesStatus := Persisted.UpdatesStatus v |};
              Row.DisconnectedAt :=
                match Persisted.DisconnectedAt v with
                | Some t => {| Time := t; Valid := true |}
                | None => {| Time := zeroTime; Valid := false |}
                end |}
  end.

(** The method [convert] of a row.  [None] stands for the panic of the
    dereference of a nil [Details]. *)
Definition convert (s : clientSqlite) : option Client :=
  match Row.Details s with
  | None => None
  | Some d =>
      Some {|
         Persisted.ID := Row.ID s;
         Persisted.ClientAuthID := Row.ClientAuthID s;
         Persisted.Name := Details.Name d;
         Persisted.OS := Details.OS d;
         Persisted.OSArch := Details.OSArch d;
         Persisted.OSFamily := Details.OSFamily d;
         Persisted.OSKernel := Details.OSKernel d;
         Persisted.Hostname := Details.Hostname d;
         Persisted.IPv4 := Details.IPv4 d;
         Persisted.IPv6 := Details.IPv6 d;
         Persisted.Tags := Details.Tags d;
         Persisted.Version := Details.Version d;
         Persisted.Address := Details.Address d;
         Persisted.Tunnels := Details.Tunnels d;
         Persisted.OSFullName := Details.OSFullName d;
         Persisted.OSVersion := Details.OSVersion d;
         Persisted.OSVirtualizationSystem := Details.OSVirtualizationSystem d;
         Persisted.OSVirtualizationRole := Details.OSVirtualizationRole d;
         Persisted.CPUFamily := Details.CPUFamily d;
         Persisted.CPUModel := Details.CPUModel d;
         Persisted.CPUModelName := Details.CPUModelName d;
         Persisted.CPUVendor := Details.CPUVendor d;
         Persisted.NumCPUs := Details.NumCPUs d;
         Persisted.MemoryTotal := Details.MemoryTotal d;
         Persisted.Timezone := Details.Timezone d;
         Persisted.AllowedUserGroups := Details.AllowedUserGroups d;
         Persisted.UpdatesStatus := Details.UpdatesStatus d;
         Persisted.DisconnectedAt :=
           if Valid (Row.DisconnectedAt s)
           then Some (Time (Row.DisconnectedAt s))
           else None |}
  end.

(** [convertClientList]; a row without details makes the conversion panic. *)
Fixpoint convertClientList (res : list clientSqlite) : option (list Client) :=
  match res with
  | [] => Some []
  | cur :: rest =>
      match convert cur, convertClientList rest with
      | Some v, Some res => Some (v :: res)
      | _, _ => None
      end
  end.

End Convert.

(** *** The statements of [SqliteProvider] on the table

    The table of [Clients.SqliteProvider] holds, for each row, the client
    that the row converts to. *)
Section Queries.
Import Clients.

(** The [WHERE] clause of [GetAll]. *)
Definition selectedRow (start : Clients.Time) (row : Clients.Client) : bool :=
  match Clients.DisconnectedAt row with
  | None => true
  | Some t => (DATETIME start <=? DATETIME t)%Z
  end.

Definition sqliteGetAll (p : SqliteProvider) (now : Clients.Time)
  : SqliteProvider * (list Clients.Client * error) :=
  match nextFault p with
  | (Some e, p') => (p', ([], Some e))
  | (None, p') =>
      (p', ((filter (fun kv => selectedRow (keepLostClientsStart p now) kv.2 = true)
                    (map_to_list (rows p'))).*2,
            None))
  end.

(** The method [get]: the row of the id, if there is one. *)
Definition sqliteGet (p : SqliteProvider) (id : string)
  : SqliteProvider * (option Clients.Client * error) :=
  match nextFault p with
  | (Some e, p') => (p', (None, Some e))
  | (None, p') => (p', (rows p' !! id, None))
  end.

End Queries.

End Sqlite.

Module SqliteFixtures.
Import Clients Sqlite.

(** A row with every detail, for a client with one tunnel. *)
Definition sampleRow (disconnectedAt : NullTime) : Row.clientSqlite unit unit :=
  {| Row.ID := "c1"; Row.ClientAuthID := "user1"; Row.DisconnectedAt := disconnectedAt;
     Row.Details := Some
       {| Details.NumCPUs := 2; Details.MemoryTotal := 100000; Details.Name := "n";
          Details.OS := "os"; Details.OSArch := "amd64"; Details.OSFamily := "debian";
          Details.OSKernel := "linux"; Details.OSFullName := "Debian 10";
          Details.OSVersion := "10"; Details.OSVirtualizationSystem := "KVM";
          Details.OSVirtualizationRole := "guest"; Details.CPUFamily := "6";
          Details.CPUModel := "79"; Details.CPUModelName := "Virtual CPU";
          Details.CPUVendor := "GenuineIntel"; Details.Timezone := "UTC";
          Details.Hostname := "h"; Details.Version := "0.1"; Details.Address := "a:1";
          Details.IPv4 := ["192.0.2.1"]; Details.IPv6 := []; Details.Tags := ["t"];
          Details.Tunnels := [tt]; Details.AllowedUserGroups := [];
          Details.UpdatesStatus := None |} |}.

End SqliteFixtures.

(** ** More of Go's package [strings] *)
Module MoreStrings.
Import Strings.

(** [indexFrom substr s i]: the index of the first instance of [substr] in
    [s], counted from [i], or [-1]. *)
Fixpoint indexFrom (substr s : string) (i : Z) : Z :=
  if hasPrefix substr s then i
  else match s with
       | EmptyString => (-1)%Z
       | String _ rest => indexFrom substr rest (i + 1)%Z
       end.

(** [strings.Index]. *)
Definition Index (s substr : string) : Z := indexFrom substr s 0.

(** [strings.Contains]. *)
Definition Contains (s substr : string) : bool := (0 <=? Index s substr)%Z.

(** The slices [s[:n]] and [s[n:]], for [n] within the string. *)
Fixpoint sliceTo (s : string) (n : nat) : string :=
  match n, s with
  | S k, String c rest => String c (sliceTo rest k)
  | _, _ => EmptyString
  end.

Fixpoint sliceFrom (s : string) (n : nat) : string :=
  match n, s with
  | S k, String _ rest => sliceFrom rest k
  | _, _ => s
  end.

(** [splitAt sep cur s]: the pieces of [s] between the occurrences of the
    character [sep], the first piece after [cur], which is kept reversed. *)
Fixpoint splitAt (sep : ascii) (cur : list ascii) (s : string) : list string :=
  match s with
  | EmptyString => [string_of_list_ascii (rev cur)]
  | String c rest =>
      if Ascii.eqb c sep
      then string_of_list_ascii (rev cur) :: splitAt sep [] rest
      else splitAt sep (c :: cur) rest
  end.

(** [strings.Split(s, sep)] for a separator of one character. *)
Definition Split (s : string) (sep : ascii) : list string := splitAt sep [] s.

(** Every space with a backslash before it: what [ReplaceAll s " " "\ "]
    comes to, character by character. *)
Fixpoint escapeSpaces (s : string) : string :=
  match s with
  | EmptyString => EmptyString
  | String c rest =>
      if Ascii.eqb c " " then String "\" (String " " (escapeSpaces rest))
      else String c (escapeSpaces rest)
  end.

End MoreStrings.

(** ** Package comm: the replies to a request *)
Module Replies.
Import Comm.

(** What [req.Reply(ok, payload)] sends back.  A reply that fails to be sent
    is logged; the log is left out. *)
Definition ReplyError (err : error) : bool * string :=
  let errMsg := match err with
                | Some msg => msg
                | None => EmptyString
                end in
  (false, errMsg).

Section Codec.
Context {Resp : Type}.
Variable marshal : Resp -> string + string.

Definition ReplySuccessJSON (resp : Resp) : bool * string :=
  match marshal resp with
  | inr err => ReplyError (Some err)
  | inl respBytes => (true, respBytes)
  end.

End Codec.

(** The connection to a peer that answers the request [name] with the
    payload [payload] by [handler name payload]: [SendRequest] returns what
    the peer has passed to [Reply]. *)
Definition peer (handler : string -> string -> bool * string) : Conn :=
  {| SendRequest := fun name _ payload =>
       let '(ok, respBytes) := handler name payload in (ok, respBytes, None) |}.

End Replies.

(** ** client/exec_nix.go *)
Module Exec.
Import Strings MoreStrings.

(** [CmdExecutorContext], with the fields that [New] reads. *)
Record CmdExecutorContext : Type := {
  Interpreter : string;
  Command : string;
  WorkingDir : string;
  IsSudo : bool;
}.

(** [exec.Cmd]: [Args] holds the name of the program and its arguments. *)
Record Cmd : Type := {
  Args : list string;
  Dir : string;
}.

(** The slice [args] before the call of [exec.CommandContext]. *)
Definition arguments (execCtx : CmdExecutorContext) : list string :=
  let args := [] in
  let args := if IsSudo execCtx then args ++ ["sudo"; "-n"] else args in
  let interpreter := Interpreter execCtx in
  let args :=
    if negb (String.eqb interpreter EmptyString) then
      let args := args ++ [interpreter] in
      if negb (String.eqb interpreter Validation.Tacoscript)
      then args ++ ["-c"] else args
    else args in
  let cmdStr := Command execCtx in
  let cmdStr := if Contains cmdStr " " then ReplaceAll cmdStr " " "\ " else cmdStr in
  args ++ [cmdStr].

(** The method [New] of [CmdExecutorImpl].  [None] stands for the panic of
    [args[0]] on an empty slice. *)
Definition New (execCtx : CmdExecutorContext) : option Cmd :=
  match arguments execCtx with
  | [] => None
  | name :: arg => Some {| Args := name :: arg; Dir := WorkingDir execCtx |}
  end.

End Exec.

(** ** The flag [--header] of the client (cmd/rport/main.go) *)
Module Flags.
Import MoreStrings.

(** [http.Header]. *)
Abbreviation Header := (gmap string (list string)).

Section HeaderFlags.

(** [textproto.CanonicalMIMEHeaderKey] and [strings.TrimSpace]. *)
Variable CanonicalMIMEHeaderKey : string -> string.
Variable TrimSpace : string -> string.

(** [http.Header.Set]. *)
Definition HeaderSet (h : Header) (key value : string) : Header :=
  <[CanonicalMIMEHeaderKey key := [value]]> h.

(** [headerFlags]; the header is [None] when the map is nil. *)
Record headerFlags : Type := {
  FlagHeader : option Header;
}.

(** The method [Set] of [headerFlags]. *)
Definition headerFlags_Set (flag : headerFlags) (arg : string) : headerFlags * error :=
  let index := Index arg ":" in
  if (index <? 0)%Z then
    (flag, Some ("Invalid header (" +:+ arg +:+ "). Should be in the format "
                 +:+ API.quoted "HeaderName: HeaderContent"))
  else
    let header := match FlagHeader flag with
                  | Some h => h
                  | None => ∅
                  end in
    let key := sliceTo arg (Z.to_nat index) in
    let value := sliceFrom arg (Z.to_nat (index + 1)) in
    ({| FlagHeader := Some (HeaderSet header key (TrimSpace value)) |}, None).

End HeaderFlags.

End Flags.

(** ** db/migration/jobs/bindata.go *)
Module Bindata.
Import Strings MoreStrings.

Record bindataFileInfo : Type := {
  name : string;
  size : Z;
  mode : Z;
  modTime : Z;
}.

Record asset : Type := {
  bytes : string;
  info : bindataFileInfo;
}.

(** [os.ModeDir], bit 31 of a file mode. *)
Definition ModeDir : Z := Z.shiftl 1 31.

Definition IsDir (fi : bindataFileInfo) : bool :=
  negb (Z.land (mode fi) ModeDir =? 0)%Z.

(** The two assets of the table. *)
Inductive Loader : Type :=
| _001_initDownSql
| _001_initUpSql.

Section Assets.

(** [bindataRead] on the embedded data of the asset of the given name: the
    decompressed bytes, or the error of the decompression. *)
Variable bindataRead : string -> string + string.

Definition load (f : Loader) : asset + string :=
  match f with
  | _001_initDownSql =>
      match bindataRead "001_init.down.sql" with
      | inr err => inr err
      | inl bytes =>
          inl {| bytes := bytes;
                 info := {| name := "001_init.down.sql"; size := 109; mode := 420;
                            modTime := 1612369584 |} |}
      end
  | _001_initUpSql =>
      match bindataRead "001_init.up.sql" with
      | inr err => inr err
      | inl bytes =>
          inl {| bytes := bytes;
                 info := {| name := "001_init.up.sql"; size := 649; mode := 420;
                            modTime := 1612369584 |} |}
      end
  end.

(** The table [_bindata]. *)
Definition _bindata : gmap string Loader :=
  {[ "001_init.down.sql" := _001_initDownSql; "001_init.up.sql" := _001_initUpSql ]}.

Definition Asset (name : string) : string * error :=
  let cannonicalName := ReplaceAll name "\" "/" in
  match _bindata !! cannonicalName with
  | Some f =>
      match load f with
      | inr err =>
          (EmptyString, Some ("Asset " +:+ name +:+ " can't read by error: " +:+ err))
      | inl a => (bytes a, None)
      end
  | None => (EmptyString, Some ("Asset " +:+ name +:+ " not found"))
  end.

Definition AssetInfo (name : string) : option bindataFileInfo * error :=
  let cannonicalName := ReplaceAll name "\" "/" in
  match _bindata !! cannonicalName with
  | Some f =>
      match load f with
      | inr err =>
          (None, Some ("AssetInfo " +:+ name +:+ " can't read by error: " +:+ err))
      | inl a => (Some (info a), None)
      end
  | None => (None, Some ("AssetInfo " +:+ name +:+ " not found"))
  end.

(** [AssetNames]: the names of the table, in some order. *)
Definition AssetNames : list string := (map_to_list _bindata).*1.

(** [bintree]: the loader of a file, and the children by name. *)
Inductive bintree : Type :=
| Bintree (Func : option Loader) (Children : list (string * bintree)).

Definition Func (node : bintree) : option Loader :=
  match node with Bintree f _ => f end.

Definition Children (node : bintree) : list (string * bintree) :=
  match node with Bintree _ children => children end.

Fixpoint child (children : list (string * bintree)) (p : string) : option bintree :=
  match children with
  | [] => None
  | (childName, node) :: rest =>
      if String.eqb childName p then Some node else child rest p
  end.

Definition _bintree : bintree :=
  Bintree None [("001_init.down.sql", Bintree (Some _001_initDownSql) []);
                ("001_init.up.sql", Bintree (Some _001_initUpSql) [])].

(** The loop [for _, p := range pathList] of [AssetDir]; [None] when a child
    is missing. *)
Fixpoint descend (node : bintree) (pathList : list string) : option bintree :=
  match pathList with
  | [] => Some node
  | p :: rest =>
      match child (Children node) p with
      | None => None
      | Some next => descend next rest
      end
  end.

Definition AssetDir (name : string) : list string * error :=
  let notFound := ([], Some ("Asset " +:+ name +:+ " not found")) in
  let found :=
    if (String.length name =? 0)%nat then Some _bintree
    else descend _bintree (Split (ReplaceAll name "\" "/") "/") in
  match found with
  | None => notFound
  | Some node =>
      match Func node with
      | Some _ => notFound
      | None => ((Children node).*1, None)
      end
  end.

End Assets.

End Bindata.

(** * Properties *)

Section ValidationFacts.
Import Validation.

Lemma rangeContains_In interpreter vs :
  rangeContains interpreter vs = true <-> In interpreter vs.
Proof.
  induction vs as [|v rest IH]; simpl.
  - split; [discriminate | tauto].
  - destruct (String.eqb_spec interpreter v) as [->|Hne].
    + split; auto.
    + rewrite IH. split; [auto | intros [Heq|Hin]; [congruence | exact Hin]].
Qed.

(** The message of the test case "invalid interpreter" of
    [TestHandlePostCommand]. *)
Example ValidateInterpreter_unsupported :
  ValidateInterpreter "unsupported" false =
  Some "expected interpreter to be one of: [cmd powershell tacoscript], actual: unsupported".
Proof. reflexivity. Qed.

(** C4, as stated, fails on the empty string: it is outside the set of valid
    interpreters, and [ValidateInterpreter] returns nil for it. *)
Lemma ValidateInterpreter_empty_not_rejected :
  ~ In EmptyString validInputInterpreter /\ ValidateInterpreter EmptyString false = None.
Proof.
  split; [|reflexivity].
  simpl. intros [H|[H|[H|[]]]]; discriminate H.
Qed.

(** C4 (amended): [ValidateInterpreter] returns an error for every NON-EMPTY
    interpreter string outside the set cmd, powershell, tacoscript, and for
    tacoscript when the input is an ad-hoc command; it returns nil for cmd
    and powershell with any [isScript], and for tacoscript with
    [isScript = true]. *)
Theorem ValidateInterpreter_closed_set (interpreter : string) (isScript : bool)
    (Hnonempty : interpreter <> EmptyString)
    (Houtside : ~ In interpreter validInputInterpreter) :
  ValidateInterpreter interpreter isScript <> None
  /\ ValidateInterpreter Tacoscript false <> None
  /\ (forall b, ValidateInterpreter CmdShell b = None)
  /\ (forall b, ValidateInterpreter PowerShell b = None)
  /\ ValidateInterpreter Tacoscript true = None.
Proof.
  repeat split; try discriminate; try (intros []; reflexivity).
  unfold ValidateInterpreter.
  destruct (String.eqb_spec interpreter EmptyString) as [E|_]; [contradiction|].
  destruct (negb isScript && String.eqb interpreter Tacoscript); [discriminate|].
  destruct (rangeContains interpreter validInputInterpreter) eqn:Hc; [|discriminate].
  apply rangeContains_In in Hc. contradiction.
Qed.

Lemma ValidateInterpreter_closed_set_witness :
  ValidateInterpreter "bash" true <> None
  /\ ValidateInterpreter Tacoscript false <> None
  /\ (forall b, ValidateInterpreter CmdShell b = None)
  /\ (forall b, ValidateInterpreter PowerShell b = None)
  /\ ValidateInterpreter Tacoscript true = None.
Proof.
  apply (ValidateInterpreter_closed_set "bash" true).
  - discriminate.
  - simpl. intros [H|[H|[H|[]]]]; discriminate H.
Defined.

(** C10: the empty interpreter string is accepted for commands and for
    scripts, although it is not a member of the valid interpreter set. *)
Theorem ValidateInterpreter_empty (isScript : bool) :
  ValidateInterpreter EmptyString isScript = None /\ ~ In EmptyString validInputInterpreter.
Proof.
  split; [reflexivity|].
  simpl. intros [H|[H|[H|[]]]]; discriminate H.
Qed.

End ValidationFacts.

(** ** The matcher decides the language of the syntax tree *)
Section RegexpFacts.
Import Regexp.

Lemma Matches_concat_inv a b w :
  Matches (OpConcat a b) w ->
  exists s1 s2, w = s1 ++ s2 /\ Matches a s1 /\ Matches b s2.
Proof. inversion 1; subst; eauto. Qed.

Lemma Matches_alternate_inv a b w :
  Matches (OpAlternate a b) w -> Matches a w \/ Matches b w.
Proof. inversion 1; subst; auto. Qed.

Lemma nullable_Matches re : nullable re = true <-> Matches re [].
Proof.
  induction re as [| | c | |a IHa b IHb|a IHa b IHb|a IHa]; simpl.
  - split; [discriminate | inversion 1].
  - split; [constructor | reflexivity].
  - split; [discriminate | inversion 1].
  - split; [discriminate | inversion 1].
  - rewrite andb_true_iff, IHa, IHb. split.
    + intros [Ha Hb]. apply (MConcat a b [] []); assumption.
    + intros Hw. apply Matches_concat_inv in Hw as (s1 & s2 & Heq & H1 & H2).
      symmetry in Heq. apply app_eq_nil in Heq as [-> ->]. auto.
  - rewrite orb_true_iff, IHa, IHb. split.
    + intros [Ha|Hb]; [apply MAltL | apply MAltR]; assumption.
    + apply Matches_alternate_inv.
  - split; [constructor | reflexivity].
Qed.

Lemma Matches_star_cons a c s :
  Matches (OpStar a) (c :: s) ->
  exists s1 s2, s = s1 ++ s2 /\ Matches a (c :: s1) /\ Matches (OpStar a) s2.
Proof.
  intros Hm. remember (OpStar a) as re eqn:Hre. remember (c :: s) as w eqn:Hw.
  revert s Hw.
  induction Hm as [| | | | | | |a' s1 t Hs _ Ht IHt]; intros u Hu; try discriminate.
  injection Hre as ->. destruct s1 as [|d s1].
  - apply IHt; [reflexivity | exact Hu].
  - injection Hu as -> <-. exists s1, t. auto.
Qed.

Lemma derive_Matches c re s : Matches (derive c re) s <-> Matches re (c :: s).
Proof.
  revert s.
  induction re as [| | d | |a IHa b IHb|a IHa b IHb|a IHa]; intros s; simpl.
  - split; inversion 1.
  - split; inversion 1.
  - destruct (Ascii.eqb_spec c d) as [->|Hne].
    + split; inversion 1; subst; constructor.
    + split; inversion 1; subst; congruence.
  - destruct (Ascii.eqb_spec c newline) as [->|Hne].
    + split; inversion 1; subst; congruence.
    + split; inversion 1; subst; by constructor.
  - assert (Hleft : forall w, Matches (OpConcat (derive c a) b) w ->
                              Matches (OpConcat a b) (c :: w)).
    { intros w Hw. apply Matches_concat_inv in Hw as (s1 & s2 & -> & H1 & H2).
      apply IHa in H1. apply (MConcat a b (c :: s1) s2); assumption. }
    assert (Hinv : Matches (OpConcat a b) (c :: s) ->
                   Matches (OpConcat (derive c a) b) s
                   \/ (Matches a [] /\ Matches (derive c b) s)).
    { intros Hw. apply Matches_concat_inv in Hw as (s1 & s2 & Heq & H1 & H2).
      destruct s1 as [|d s1].
      - right. simpl in Heq. subst s2. split; [assumption | by apply IHb].
      - left. injection Heq as <- ->. apply MConcat; [by apply IHa | assumption]. }
    destruct (nullable a) eqn:Hn.
    + split.
      * intros Hw. apply Matches_alternate_inv in Hw as [Hl|Hr]; [by apply Hleft|].
        apply (MConcat a b [] (c :: s)); [by apply nullable_Matches | by apply IHb].
      * intros Hw. destruct (Hinv Hw) as [Hl|[_ Hr]];
          [by apply MAltL | by apply MAltR].
    + split; [apply Hleft|].
      intros Hw. destruct (Hinv Hw) as [Hl|[Ha _]]; [assumption|].
      apply nullable_Matches in Ha. congruence.
  - split.
    + intros Hw. apply Matches_alternate_inv in Hw as [Hl|Hr];
        [apply MAltL; by apply IHa | apply MAltR; by apply IHb].
    + intros Hw. apply Matches_alternate_inv in Hw as [Hl|Hr];
        [apply MAltL; by apply IHa | apply MAltR; by apply IHb].
  - split.
    + intros Hw. apply Matches_concat_inv in Hw as (s1 & s2 & -> & H1 & H2).
      apply IHa in H1. apply (MStarApp a (c :: s1) s2); assumption.
    + intros Hw. apply Matches_star_cons in Hw as (s1 & s2 & -> & H1 & H2).
      apply MConcat; [by apply IHa | assumption].
Qed.

Lemma matchWhole_Matches re s : matchWhole re s = true <-> Matches re s.
Proof.
  revert re. induction s as [|c s IH]; intros re; simpl.
  - apply nullable_Matches.
  - rewrite IH. apply derive_Matches.
Qed.

Lemma matchPrefix_Matches re s :
  matchPrefix re s = true <-> exists mid post, s = mid ++ post /\ Matches re mid.
Proof.
  revert re. induction s as [|c s IH]; intros re; simpl.
  - rewrite orb_false_r, nullable_Matches. split.
    + intros Hm. exists [], []. auto.
    + intros (mid & post & Heq & Hm). symmetry in Heq.
      apply app_eq_nil in Heq as [-> _]. exact Hm.
  - rewrite orb_true_iff, nullable_Matches, IH. split.
    + intros [Hm|(mid & post & -> & Hm)].
      * exists [], (c :: s). auto.
      * exists (c :: mid), post. split; [reflexivity | by apply derive_Matches].
    + intros (mid & post & Heq & Hm). destruct mid as [|d mid].
      * by left.
      * right. injection Heq as <- ->. exists mid, post.
        split; [reflexivity | by apply derive_Matches].
Qed.

Lemma search_Matches re s :
  search re s = true <->
  exists pre mid post, s = pre ++ mid ++ post /\ Matches re mid.
Proof.
  induction s as [|c s IH].
  - change (search re []) with (matchPrefix re [] || false).
    rewrite orb_false_r, matchPrefix_Matches. split.
    + intros (mid & post & Heq & Hm). exists [], mid, post. auto.
    + intros (pre & mid & post & Heq & Hm). symmetry in Heq.
      apply app_eq_nil in Heq as [_ Heq]. exists mid, post. auto.
  - change (search re (c :: s)) with (matchPrefix re (c :: s) || search re s).
    rewrite orb_true_iff, IH, matchPrefix_Matches. split.
    + intros [(mid & post & Heq & Hm)|(pre & mid & post & -> & Hm)].
      * exists [], mid, post. auto.
      * exists (c :: pre), mid, post. auto.
    + intros (pre & mid & post & Heq & Hm). destruct pre as [|d pre].
      * left. exists mid, post. auto.
      * right. injection Heq as <- ->. exists pre, mid, post. auto.
Qed.

End RegexpFacts.

(** ** Filters of [GetUserClients] *)
Section FilterFacts.
Import Clients Regexp Strings Fixtures.

Lemma hasUnescapedWildCard_get filterValue :
  hasUnescapedWildCard filterValue = true ->
  exists i c, String.get i filterValue = Some c /\ c <> "\"%char
              /\ String.get (S i) filterValue = Some "*"%char.
Proof.
  induction filterValue as [|c rest IH]; [discriminate|].
  destruct rest as [|d rest']; [discriminate|].
  cbn [hasUnescapedWildCard]. rewrite orb_true_iff, andb_true_iff, negb_true_iff.
  intros [[Hc Hd]|Hrest].
  - exists 0, c. apply Ascii.eqb_eq in Hd as ->.
    apply Ascii.eqb_neq in Hc. auto.
  - destruct (IH Hrest) as (i & x & Hi & Hx & Hstar). exists (S i), x. auto.
Qed.

Lemma everyStarEscaped_not_detected filterValue :
  everyStarEscaped filterValue -> hasUnescapedWildCard filterValue = false.
Proof.
  intros Hesc. destruct (hasUnescapedWildCard filterValue) eqn:Hw; [|reflexivity].
  apply hasUnescapedWildCard_get in Hw as (i & c & Hi & Hc & Hstar).
  destruct (Hesc _ Hstar) as (j & Hj & Hback). injection Hj as <-. congruence.
Qed.

(** X11: The loop over the values of a filter accepts when one of the values
    does. *)
Lemma rangeFilterValues_any (foreign : ForeignCompile) (field : string)
    (values : list string) :
  rangeFilterValues foreign field values
  = existsb (fun value => rangeFilterValues foreign field [value]) values.
Proof.
  induction values as [|value rest IH]; [reflexivity|].
  cbn [existsb]. rewrite <- IH. cbn.
  destruct (negb (hasUnescapedWildCard value)).
  - by destruct (String.eqb value field).
  - destruct (Compile foreign (ReplaceAll value "*" ".*")) as [re|err].
    + by destruct (MatchString re field).
    + by destruct (String.eqb value field).
Qed.

(** A leading star is not detected as a wildcard: the value is compared as a
    literal string. *)
Example leading_star_is_literal :
  hasUnescapedWildCard "*a" = false
  /\ clientMatchesFilter noForeign (named "c1" "ba" None)
       {| Column := "name"; Values := ["*a"] |} = (false, None)
  /\ clientMatchesFilter noForeign (named "c1" "*a" None)
       {| Column := "name"; Values := ["*a"] |} = (true, None).
Proof. vm_compute. auto. Qed.

(** C1, as stated, fails: the value [a*] has an unescaped wildcard, the
    anchored pattern [a.*] does not match the whole of [ba], and the filter
    matches the client named [ba]. *)
Lemma clientMatchesFilter_not_anchored :
  let re := OpConcat (OpConcat OpEmptyMatch (OpLiteral "a")) (OpStar OpAnyCharNotNL) in
  hasUnescapedWildCard "a*" = true
  /\ parse (ReplaceAll "a*" "*" ".*") = Tree re
  /\ ~ Matches re (list_ascii_of_string "ba")
  /\ clientMatchesFilter noForeign (named "c1" "ba" None)
       {| Column := "name"; Values := ["a*"] |} = (true, None).
Proof.
  cbv zeta. repeat split; try (vm_compute; reflexivity).
  intros Hm. apply matchWhole_Matches in Hm. vm_compute in Hm. discriminate.
Qed.

(** C1 (amended): for a filter value in which some [*] comes directly after
    a character other than a backslash, and whose rewriting of each [*] to
    [.*] compiles, the value matches a client's field if and only if the
    UNANCHORED regular expression matches somewhere in the stringified
    field value; a value whose every [*] comes directly after a backslash
    is compared as a literal string. *)
Theorem clientMatchesFilter_wildcard (foreign : ForeignCompile)
    (cl : Client) (column filterValue : string)
    (clientMap : gmap string Value) (v : Value)
    (Hmap : Encoded cl = inl clientMap)
    (Hcol : clientMap !! column = Some v) :
  let filter := {| Column := column; Values := [filterValue] |} in
  (forall compiled,
      hasUnescapedWildCard filterValue = true ->
      Compile foreign (ReplaceAll filterValue "*" ".*") = inl compiled ->
      clientMatchesFilter foreign cl filter
      = (MatchString compiled (Sprint v), None))
  /\ (forall re,
        hasUnescapedWildCard filterValue = true ->
        Compile foreign (ReplaceAll filterValue "*" ".*") = inl (Program re) ->
        exists matches,
          clientMatchesFilter foreign cl filter = (matches, None)
          /\ (matches = true <->
              exists pre mid post,
                list_ascii_of_string (Sprint v) = pre ++ mid ++ post
                /\ Matches re mid))
  /\ (everyStarEscaped filterValue ->
      clientMatchesFilter foreign cl filter
      = (String.eqb filterValue (Sprint v), None)).
Proof.
  cbv zeta. unfold clientMatchesFilter, clientToMap. rewrite Hmap. cbn.
  rewrite Hcol. cbn. split; [|split].
  - intros compiled Hw Hc. rewrite Hw, Hc. cbn.
    by destruct (MatchString compiled (Sprint v)).
  - intros re Hw Hc. rewrite Hw, Hc. cbn.
    exists (search re (list_ascii_of_string (Sprint v))). split.
    + by destruct (search re (list_ascii_of_string (Sprint v))).
    + apply search_Matches.
  - intros Hesc. rewrite (everyStarEscaped_not_detected _ Hesc). cbn.
    by destruct (String.eqb filterValue (Sprint v)).
Qed.

Lemma clientMatchesFilter_wildcard_witness :
  (exists matches,
      clientMatchesFilter noForeign (named "c1" "ba" None)
        {| Column := "name"; Values := ["a*"] |} = (matches, None)
      /\ (matches = true <->
          exists pre mid post,
            list_ascii_of_string "ba" = pre ++ mid ++ post
            /\ Matches (OpConcat (OpConcat OpEmptyMatch (OpLiteral "a"))
                                 (OpStar OpAnyCharNotNL)) mid))
  /\ clientMatchesFilter noForeign (named "c1" "a*" None)
       {| Column := "name"; Values := ["a\*"] |} = (false, None).
Proof.
  split.
  - apply (clientMatchesFilter_wildcard noForeign (named "c1" "ba" None) "name" "a*"
             {[ "id" := VString "c1"; "name" := VString "ba" ]} (VString "ba")
             eq_refl eq_refl); reflexivity.
  - apply (clientMatchesFilter_wildcard noForeign (named "c1" "a*" None) "name" "a\*"
             {[ "id" := VString "c1"; "name" := VString "a*" ]} (VString "a*")
             eq_refl eq_refl).
    intros [|[|[|i]]]; cbn; try discriminate. intros _. exists 1. auto.
Defined.

End FilterFacts.

(** ** The client repository *)
Section RepositoryFacts.
Import Clients Fixtures.
Context {P : Type} `{ClientProvider P}.

Lemma sameReads_cache (s s' : ClientRepository P) :
  clients s' = clients s -> KeepLostClients s' = KeepLostClients s ->
  sameReads s s'.
Proof.
  intros Hc Hk foreign now id user filterOptions.
  unfold GetByID, GetActiveByID, GetAll, GetAllActive, GetAllByClientAuthID,
    GetUserClients, getNonObsoleteFiltered, Count, CountActive,
    CountDisconnected, GetAll, GetAllActive, getNonObsolete, rangeClients.
  rewrite Hc, Hk. repeat split; try reflexivity; auto.
Qed.

(** *** [keyedByID] is an invariant *)

Lemma keyedByID_insert cache client :
  keyedByID cache -> keyedByID (<[ID client := client]> cache).
Proof.
  intros Hk key c. rewrite lookup_insert. case_decide as Heq.
  - intros [= <-]. exact Heq.
  - apply Hk.
Qed.

Lemma keyedByID_delete cache id : keyedByID cache -> keyedByID (delete id cache).
Proof.
  intros Hk key c. rewrite lookup_delete. case_decide; [discriminate | apply Hk].
Qed.

Lemma keyedByID_new initClients keep (provider : option P) :
  keyedByID (clients (newClientRepositoryWithDB initClients keep provider)).
Proof.
  unfold newClientRepositoryWithDB. cbn.
  assert (Hgen : forall cache, keyedByID cache ->
            keyedByID (fold_left (fun cache c => <[ID c := c]> cache) initClients cache)).
  { induction initClients as [|c rest IH]; intros cache Hk; cbn; [exact Hk|].
    apply IH. by apply keyedByID_insert. }
  apply Hgen. intros key c. rewrite lookup_empty. discriminate.
Qed.

Lemma keyedByID_Save (s : ClientRepository P) client :
  keyedByID (clients s) -> keyedByID (clients (Save s client).1.2).
Proof.
  intros Hk. unfold Save. destruct (provider s) as [p|]; cbn.
  - destruct (providerSave p client) as [p' [err|]]; cbn;
      [exact Hk | by apply keyedByID_insert].
  - by apply keyedByID_insert.
Qed.

Lemma keyedByID_Delete (s : ClientRepository P) client :
  keyedByID (clients s) -> keyedByID (clients (Delete s client).1.2).
Proof.
  intros Hk. unfold Delete. destruct (provider s) as [p|]; cbn.
  - destruct (providerDelete p (ID client)) as [p' [err|]]; cbn;
      [exact Hk | by apply keyedByID_delete].
  - by apply keyedByID_delete.
Qed.

(** *** The loop of [DeleteObsolete] *)

Lemma deleteObsoleteRange_shrinks keep now order :
  forall cache deleted cache' deleted',
    deleteObsoleteRange keep now order cache deleted = (cache', deleted') ->
    forall key client, cache' !! key = Some client -> cache !! key = Some client.
Proof.
  induction order as [|[k x] rest IH]; intros cache deleted cache' deleted' Hrun; cbn in Hrun.
  - injection Hrun as <- <-. auto.
  - destruct (cache !! k) as [client|] eqn:Hlook; [|by eapply IH].
    destruct (Obsolete client keep now); [|by eapply IH].
    intros key c Hc. specialize (IH _ _ _ _ Hrun key c Hc).
    rewrite lookup_delete in IH. by case_decide.
Qed.

Lemma deleteObsoleteRange_clean keep now order :
  forall cache deleted cache' deleted',
    keyedByID cache ->
    deleteObsoleteRange keep now order cache deleted = (cache', deleted') ->
    forall key client,
      cache' !! key = Some client -> key ∈ order.*1 ->
      Obsolete client keep now = false.
Proof.
  induction order as [|[k x] rest IH];
    intros cache deleted cache' deleted' Hkeyed Hrun key c Hc Hin; cbn in *.
  - by apply elem_of_nil in Hin.
  - apply elem_of_cons in Hin.
    pose proof (deleteObsoleteRange_shrinks keep now rest) as Hsub.
    destruct (cache !! k) as [client|] eqn:Hlook.
    + destruct (Obsolete client keep now) eqn:Hobs.
      * destruct (decide (key = k)) as [->|Hne].
        { specialize (Hsub _ _ _ _ Hrun k c Hc).
          rewrite (Hkeyed _ _ Hlook), lookup_delete_eq in Hsub. discriminate. }
        destruct Hin as [?|Hin]; [done|].
        eapply IH; [|exact Hrun|exact Hc|exact Hin].
        by apply keyedByID_delete.
      * destruct (decide (key = k)) as [->|Hne].
        { specialize (Hsub _ _ _ _ Hrun k c Hc). congruence. }
        destruct Hin as [?|Hin]; [done|]. by eapply IH.
    + destruct (decide (key = k)) as [->|Hne].
      { specialize (Hsub _ _ _ _ Hrun k c Hc). congruence. }
      destruct Hin as [?|Hin]; [done|]. by eapply IH.
Qed.

Lemma deleteObsoleteRange_noop keep now order :
  forall cache deleted,
    (forall key client, cache !! key = Some client -> Obsolete client keep now = false) ->
    deleteObsoleteRange keep now order cache deleted = (cache, deleted).
Proof.
  induction order as [|[k x] rest IH]; intros cache deleted Hclean; cbn; [reflexivity|].
  destruct (cache !! k) as [client|] eqn:Hlook; [|by apply IH].
  rewrite (Hclean _ _ Hlook). by apply IH.
Qed.

(** After a sweep of the whole cache no obsolete client is left. *)
Lemma sweep_clean keep now (cache cache' : gmap string Client) deleted' :
  keyedByID cache ->
  deleteObsoleteRange keep now (map_to_list cache) cache [] = (cache', deleted') ->
  forall key client, cache' !! key = Some client -> Obsolete client keep now = false.
Proof.
  intros Hkeyed Hrun key c Hc.
  eapply deleteObsoleteRange_clean; [exact Hkeyed | exact Hrun | exact Hc |].
  apply list_elem_of_fmap. exists (key, c). split; [reflexivity|].
  apply elem_of_map_to_list. by eapply deleteObsoleteRange_shrinks.
Qed.

(** *** Obsolete clients *)

Lemma filterRange_members (foreign : Regexp.ForeignCompile) keep now user
    filterOptions order :
  forall result x,
    x ∈ (filterRange foreign keep now user filterOptions order result).1 ->
    x ∈ result \/ (x ∈ order /\ Obsolete x keep now = false).
Proof.
  induction order as [|client rest IH]; intros result x Hx; cbn in Hx; [by left|].
  destruct (Obsolete client keep now) eqn:Hobs.
  { destruct (IH _ _ Hx) as [?|[? ?]]; [by left | right; split; [by right | done]]. }
  destruct (negb (IsAdmin user) && negb (HasAccess client (GetGroups user))).
  { destruct (IH _ _ Hx) as [?|[? ?]]; [by left | right; split; [by right | done]]. }
  destruct (clientMatchesFilters foreign client filterOptions) as [[|] [err|]];
    cbn in Hx; try by left.
  - destruct (IH _ _ Hx) as [Hr|[? ?]]; [|right; split; [by right | done]].
    apply elem_of_app in Hr as [?|Hc]; [by left|].
    apply list_elem_of_singleton in Hc as ->. right. split; [by left | done].
  - destruct (IH _ _ Hx) as [?|[? ?]]; [by left | right; split; [by right | done]].
Qed.

Lemma rangeClients_delete (s : ClientRepository P) key client :
  clients s !! key = Some client ->
  client :: rangeClients (withClients s (delete key (clients s))) ≡ₚ rangeClients s.
Proof.
  intros Hlook. unfold rangeClients. cbn.
  rewrite <- (map_to_list_delete _ _ _ Hlook). reflexivity.
Qed.

(** C3: an obsolete client, one whose [disconnected_at] is set and lies more
    than [keep_lost_clients] before now, is hidden: [GetByID] of its id
    returns nil, [GetAll] and [GetUserClients] do not list it, and [Count]
    and [CountDisconnected] count as if it were not in the cache. *)
Theorem obsolete_client_is_hidden (foreign : Regexp.ForeignCompile)
    (s : ClientRepository P) (c : Client) (keep : Duration) (t now : Time)
    (user : User) (filterOptions : list FilterOption)
    (Hkeep : KeepLostClients s = Some keep)
    (Hdisconnected : DisconnectedAt c = Some t)
    (Hlost : (t + keep < now)%Z)
    (Hstored : clients s !! ID c = Some c) :
  GetByID s (ID c) now = (None, None)
  /\ (c ∉ (GetAll s now).1)
  /\ (c ∉ (GetUserClients foreign s user filterOptions now).1)
  /\ Count s now = Count (withClients s (delete (ID c) (clients s))) now
  /\ CountDisconnected s now
     = CountDisconnected (withClients s (delete (ID c) (clients s))) now.
Proof.
  assert (Hobs : Obsolete c (KeepLostClients s) now = true).
  { unfold Obsolete. rewrite Hkeep, Hdisconnected. by apply Z.ltb_lt. }
  assert (Hfilter :
    filter (fun client => Obsolete client (KeepLostClients s) now = false)
           (rangeClients s)
    ≡ₚ filter (fun client => Obsolete client (KeepLostClients s) now = false)
           (rangeClients (withClients s (delete (ID c) (clients s))))).
  { rewrite <- (rangeClients_delete s _ _ Hstored).
    rewrite filter_cons_False; [reflexivity|]. congruence. }
  repeat split.
  - unfold GetByID. by rewrite Hstored, Hobs.
  - unfold GetAll, getNonObsolete. cbn. intros Hin.
    apply list_elem_of_filter in Hin as [Hno _]. congruence.
  - unfold GetUserClients, getNonObsoleteFiltered. intros Hin.
    apply filterRange_members in Hin as [Hin|[_ Hno]]; [|congruence].
    by apply elem_of_nil in Hin.
  - unfold Count, getNonObsolete. cbn. f_equal. by apply Permutation_length.
  - unfold CountDisconnected, getNonObsolete. cbn. f_equal.
    apply Permutation_length. by apply filter_Permutation.
Qed.

(** *** Save *)

(** C2: with a provider, [Save] persists the client to the provider before
    it touches the cache: the provider is called on the state it had, with
    the client, and the state that it answers with is the one that the
    repository keeps.  If the provider returns no error, the client is then
    stored in the cache under its id.  If the provider's [Save] returns an
    error, [Save] returns an error, the cache is not touched, and every read
    returns what it returned before. *)
Theorem Save_persists_first (s : ClientRepository P) (c : Client) (p : P)
    (Hprovider : provider s = Some p) :
  provider (Save s c).1.2 = Some (providerSave p c).1
  /\ KeepLostClients (Save s c).1.2 = KeepLostClients s
  /\ (forall p',
        providerSave p c = (p', None) ->
        (Save s c).1.1 = None
        /\ (Save s c).2 = [ProviderSave c; CacheStore (ID c) c]
        /\ clients (Save s c).1.2 = <[ID c := c]> (clients s)
        /\ clients (Save s c).1.2 !! ID c = Some c)
  /\ (forall p' err,
        providerSave p c = (p', Some err) ->
        (Save s c).1.1 = Some ("failed to save a client: " +:+ err)
        /\ (Save s c).2 = [ProviderSave c]
        /\ clients (Save s c).1.2 = clients s
        /\ sameReads s (Save s c).1.2).
Proof.
  unfold Save. rewrite Hprovider. split; [|split; [|split]].
  - by destruct (providerSave p c) as [p' [err|]].
  - by destruct (providerSave p c) as [p' [err|]].
  - intros p' ->. cbn. do 3 (split; [reflexivity|]). apply lookup_insert_eq.
  - intros p' err ->. cbn. do 3 (split; [reflexivity|]).
    by apply sameReads_cache.
Qed.

(** *** DeleteObsolete *)

(** C8 (amended): [DeleteObsolete] is idempotent once it has succeeded: for
    any repository state and a fixed clock reading, if the first call
    returns no error, a second call immediately after it evicts nothing:
    it returns an empty list of deleted clients and leaves the cache
    unchanged. *)
Theorem DeleteObsolete_twice (s s1 : ClientRepository P) (now : Time)
    (deleted : list Client) (trace : list Event)
    (Hkeyed : keyedByID (clients s))
    (Hfirst : DeleteObsolete s now = ((deleted, None), s1, trace)) :
  (DeleteObsolete s1 now).1.1.1 = []
  /\ clients (DeleteObsolete s1 now).1.2 = clients s1.
Proof.
  assert (Hclean : forall key client, clients s1 !! key = Some client ->
                     Obsolete client (KeepLostClients s1) now = false).
  { unfold DeleteObsolete in Hfirst.
    destruct (deleteObsoleteRange (KeepLostClients s) now (map_to_list (clients s))
                (clients s) []) as [cache gone] eqn:Hsweep.
    pose proof (sweep_clean _ _ _ _ _ Hkeyed Hsweep) as Hc.
    destruct (provider s) as [p|].
    - destruct (providerDeleteObsolete p now) as [p' [err|]];
        [discriminate|]. injection Hfirst as <- <- <-. exact Hc.
    - injection Hfirst as <- <- <-. exact Hc. }
  unfold DeleteObsolete.
  rewrite (deleteObsoleteRange_noop _ _ _ _ _ Hclean).
  destruct (provider s1) as [p|]; [|by cbn].
  by destruct (providerDeleteObsolete p now) as [p' [err|]].
Qed.

End RepositoryFacts.

Section RepositoryExamples.
Import Clients Fixtures.

Lemma obsolete_client_is_hidden_witness :
  GetByID (cached None) "c1" later = (None, None)
  /\ (lost ∉ (GetAll (cached None) later).1)
  /\ (lost ∉ (GetUserClients noForeign (cached None)
                {| IsAdmin := true; GetGroups := [] |} [] later).1)
  /\ Count (cached None) later
     = Count (withClients (cached None) (delete "c1" (clients (cached None))))
             later
  /\ CountDisconnected (cached None) later
     = CountDisconnected
         (withClients (cached None) (delete "c1" (clients (cached None))))
         later.
Proof.
  apply (obsolete_client_is_hidden noForeign (cached None) lost hour hour later
           {| IsAdmin := true; GetGroups := [] |} []); reflexivity.
Defined.

Lemma Save_persists_first_witness :
  provider (Save (cached (Some (flaky ∅))) active).1.2
  = Some {| rows := ∅; keepLostClients := hour; faults := [] |}
  /\ (Save (cached (Some (flaky ∅))) active).1.1
     = Some "failed to save a client: database is locked"
  /\ (Save (cached (Some (flaky ∅))) active).2 = [ProviderSave active]
  /\ clients (Save (cached (Some (flaky ∅))) active).1.2
     = clients (cached (Some (flaky ∅))).
Proof.
  destruct (Save_persists_first (cached (Some (flaky ∅))) active (flaky ∅) eq_refl)
    as (Hstate & _ & _ & Hfail).
  split; [exact Hstate|].
  destruct (Hfail _ _ eq_refl) as (Herr & Htrace & Hcache & _).
  split; [exact Herr|]. split; [exact Htrace | exact Hcache].
Defined.

(** A [Save] on a database that answers: the client is in the table and in
    the cache. *)
Example Save_reaches_the_table :
  let healthy := {| rows := ∅; keepLostClients := hour; faults := [] |} in
  let saved := (Save (cached (Some healthy)) (named "c3" "host-3" None)).1.2 in
  (rows <$> provider saved) = Some {[ "c3" := named "c3" "host-3" None ]}
  /\ GetByID saved "c3" later = (Some (named "c3" "host-3" None), None).
Proof. vm_compute. auto. Qed.

(** C8, as stated, fails when the provider refuses the first call: the
    first call returns an error and leaves the obsolete client in the
    cache, and the second call evicts it. *)
Lemma DeleteObsolete_evicts_after_failure :
  let s := cached (Some (flaky ∅)) in
  let first := DeleteObsolete s later in
  let second := DeleteObsolete first.1.2 later in
  keyedByID (clients s)
  /\ first.1.1 = ([], Some "failed to delete obsolete clients: database is locked")
  /\ second.1.1 = ([lost], None)
  /\ clients second.1.2 <> clients first.1.2.
Proof.
  cbv zeta. split; [apply keyedByID_new|].
  split; [reflexivity|]. split; [vm_compute; reflexivity|].
  intros Heq. apply (f_equal (fun cache => cache !! "c1")) in Heq.
  vm_compute in Heq. discriminate.
Qed.

Lemma DeleteObsolete_twice_witness :
  (DeleteObsolete (DeleteObsolete (cached None) later).1.2 later).1.1.1 = []
  /\ clients (DeleteObsolete (DeleteObsolete (cached None) later).1.2
                later).1.2
     = clients (DeleteObsolete (cached None) later).1.2.
Proof.
  apply (DeleteObsolete_twice (cached None) _ later [lost]
           [CacheDelete "c1"]).
  - apply keyedByID_new.
  - vm_compute. reflexivity.
Defined.

End RepositoryExamples.

(** ** The dispatch of jobs *)
Section JobsFacts.
Import Clients API Jobs.

Variable generateNewJobID : nat -> string.
Variable connOf : string -> Comm.Conn.
Variable finishes : string -> JobStatus.
Variable encodeJob : Job -> string.
Variable decodeResponse : string -> RunCmdResponse + string.

Local Abbreviation createAndRunJob :=
  (Jobs.createAndRunJob generateNewJobID connOf encodeJob decodeResponse).
Local Abbreviation executeSequentially :=
  (Jobs.executeSequentially generateNewJobID connOf finishes encodeJob decodeResponse).
Local Abbreviation executeConcurrently :=
  (Jobs.executeConcurrently generateNewJobID connOf encodeJob decodeResponse).
Local Abbreviation executeMultiClientJob :=
  (Jobs.executeMultiClientJob generateNewJobID connOf finishes encodeJob decodeResponse).
Local Abbreviation handlePostMultiClientCommand :=
  (Jobs.handlePostMultiClientCommand generateNewJobID connOf finishes encodeJob
     decodeResponse).

Lemma upsert_elem job table row :
  row ∈ upsert job table -> row = job \/ row ∈ table.
Proof.
  induction table as [|r rest IH]; cbn.
  - intros Hin. apply list_elem_of_singleton in Hin. by left.
  - destruct (String.eqb (JID r) (JID job)).
    + intros Hin. apply elem_of_cons in Hin as [->|Hin]; [by left|].
      right. by right.
    + intros Hin. apply elem_of_cons in Hin as [->|Hin]; [right; by left|].
      destruct (IH Hin) as [?|?]; [by left | right; by right].
Qed.

Lemma upsert_upsert job job' table :
  JID job' = JID job -> upsert job' (upsert job table) = upsert job' table.
Proof.
  intros Hjid. induction table as [|r rest IH]; cbn.
  - rewrite Hjid, String.eqb_refl. reflexivity.
  - destruct (String.eqb (JID r) (JID job)) eqn:Hr; cbn.
    + rewrite Hjid, String.eqb_refl, Hr. reflexivity.
    + rewrite Hjid, Hr, IH. reflexivity.
Qed.

Lemma upsert_fresh job table :
  (forall row, row ∈ table -> JID row <> JID job) ->
  upsert job table = table ++ [job].
Proof.
  induction table as [|r rest IH]; intros Hfresh; cbn; [reflexivity|].
  destruct (String.eqb_spec (JID r) (JID job)) as [Heq|_].
  - exfalso. apply (Hfresh r); [by left | exact Heq].
  - rewrite IH; [reflexivity|]. intros row Hin. apply Hfresh. by right.
Qed.

Lemma upsert_last job job' table :
  JID job' = JID job ->
  (forall row, row ∈ table -> JID row <> JID job) ->
  upsert job' (table ++ [job]) = table ++ [job'].
Proof.
  intros Hjid Hfresh. rewrite <- (upsert_fresh job table Hfresh).
  rewrite (upsert_upsert _ _ _ Hjid). apply upsert_fresh.
  intros row Hin. rewrite Hjid. by apply Hfresh.
Qed.

Lemma GetByJID_upsert job w :
  GetByJID {| rows := upsert job (rows w); issued := S (issued w);
              sent := sent w ++ [ClientID job] |} (JID job) = Some job.
Proof.
  unfold GetByJID. cbn. induction (rows w) as [|r rest IH]; cbn.
  - by rewrite String.eqb_refl.
  - destruct (String.eqb (JID r) (JID job)) eqn:Hr; cbn.
    + by rewrite String.eqb_refl.
    + by rewrite Hr.
Qed.

(** What [createAndRunJob] leaves: one row for the job, one id less, one
    request more. *)
Lemma createAndRunJob_spec multiJobID req createdBy clientID w :
  exists success job,
    createAndRunJob multiJobID req createdBy clientID w
    = ((success, job),
       {| rows := upsert job (rows w); issued := S (issued w);
          sent := sent w ++ [clientID] |})
    /\ JID job = generateNewJobID (issued w)
    /\ ClientID job = clientID
    /\ MultiJobID job = Some multiJobID
    /\ (forall err, sendFails (connOf clientID) err ->
          success = false /\ Status job = JobStatusFailed
          /\ Error job = "failed to send request: " +:+ err)
    /\ (starts decodeResponse (connOf clientID) ->
          success = true /\ Status job = JobStatusRunning)
    /\ (dispatchFails connOf encodeJob decodeResponse clientID ->
          success = false /\ Status job = JobStatusFailed).
Proof.
  unfold dispatchFails.
  unfold Jobs.createAndRunJob, bind, newJID, SaveJob, sendRunCmd, ret, dispatch,
    Comm.SendRequestAndGetResponse. cbn.
  set (job := {| JID := generateNewJobID (issued w); MultiJobID := Some multiJobID;
                 ClientID := clientID; Command := ReqCommand req;
                 Interpreter := ReqInterpreter req; CreatedBy := createdBy;
                 TimeoutSec := ReqTimeoutSec req; Status := JobStatusRunning;
                 PID := None; JobStartedAt := None; Error := EmptyString |}).
  assert (Hfailing : forall sendErr ok respBytes,
            Comm.SendRequest (connOf clientID) "run_cmd" true (encodeJob job)
            = (ok, respBytes, Some sendErr) ->
            forall err, sendFails (connOf clientID) err -> sendErr = err).
  { intros sendErr ok respBytes Hsend err Hfails.
    specialize (Hfails "run_cmd" true (encodeJob job)).
    rewrite Hsend in Hfails. cbn in Hfails. congruence. }
  assert (Hanswers : forall ok respBytes,
            Comm.SendRequest (connOf clientID) "run_cmd" true (encodeJob job)
            = (ok, respBytes, None) ->
            forall err, ~ sendFails (connOf clientID) err).
  { intros ok respBytes Hsend err Hfails.
    specialize (Hfails "run_cmd" true (encodeJob job)).
    rewrite Hsend in Hfails. discriminate. }
  destruct (Comm.SendRequest (connOf clientID) "run_cmd" true (encodeJob job))
    as [[ok respBytes] [sendErr|]] eqn:Hsend.
  - exists false, (markFailed job ("failed to send request: " +:+ sendErr)).
    split; [destruct ok; cbn; by rewrite upsert_upsert|].
    do 3 (split; [reflexivity|]). split; [|split; [|done]].
    + intros err Hfails.
      rewrite <- (Hfailing _ _ _ eq_refl err Hfails). by cbn.
    + intros Hstarts. destruct (Hstarts (encodeJob job)) as (b & r & Hok & _).
      congruence.
  - destruct ok.
    + destruct (decodeResponse respBytes) as [resp|decodeErr] eqn:Hdecode; cbn.
      * exists true, (markStarted job resp).
        split; [by rewrite upsert_upsert|].
        do 3 (split; [reflexivity|]). split; [|split; [by cbn|]].
        -- intros err Hfails. destruct (Hanswers _ _ eq_refl err Hfails).
        -- intros Hdispatch. destruct (Hdispatch job eq_refl).
           cbn. by rewrite Hsend, Hdecode.
      * eexists false, (markFailed job _).
        split; [by rewrite upsert_upsert|].
        do 3 (split; [reflexivity|]). split; [|split; [|done]].
        -- intros err Hfails. destruct (Hanswers _ _ eq_refl err Hfails).
        -- intros Hstarts. destruct (Hstarts (encodeJob job)) as (b & r & Hok & Hd).
           rewrite Hsend in Hok. injection Hok as <-. congruence.
    + cbn. eexists false, (markFailed job _).
      split; [by rewrite upsert_upsert|].
      do 3 (split; [reflexivity|]). split; [|split; [|done]].
      * intros err Hfails. destruct (Hanswers _ _ eq_refl err Hfails).
      * intros Hstarts. destruct (Hstarts (encodeJob job)) as (b & r & Hok & Hd).
        rewrite Hsend in Hok. discriminate.
Qed.

Lemma awaitResult_spec job w :
  awaitResult finishes job w
  = (finishes (ClientID job),
     {| rows := upsert (withStatus job (finishes (ClientID job))) (rows w);
        issued := issued w; sent := sent w |}).
Proof. reflexivity. Qed.

Lemma executeSequentially_cons jid req createdBy clientID rest w :
  executeSequentially jid req createdBy (clientID :: rest) w
  = let '((success, job), w1) := createAndRunJob jid req createdBy clientID w in
    if success then
      let '(status, w2) := awaitResult finishes job w1 in
      if AbortOnError req && negb (bool_decide (status = JobStatusSuccessful))
      then (tt, w2)
      else executeSequentially jid req createdBy rest w2
    else if AbortOnError req then (tt, w1)
         else executeSequentially jid req createdBy rest w1.
Proof.
  cbn [Jobs.executeSequentially]. unfold bind at 1.
  destruct (createAndRunJob jid req createdBy clientID w) as [[success job] w1].
  destruct success; [|by destruct (AbortOnError req)].
  unfold bind at 1. rewrite awaitResult_spec.
  by destruct (AbortOnError req && _).
Qed.

Lemma executeConcurrently_cons jid req createdBy clientID rest w :
  executeConcurrently jid req createdBy (clientID :: rest) w
  = executeConcurrently jid req createdBy rest
      (createAndRunJob jid req createdBy clientID w).2.
Proof.
  cbn [Jobs.executeConcurrently]. unfold bind at 1.
  by destruct (createAndRunJob jid req createdBy clientID w) as [[success job] w1].
Qed.

(** *** Failed dispatches are recorded *)

Lemma createAndRunJob_failedWhereSendFails jid req createdBy clientID w :
  failedWhereSendFails connOf jid w ->
  failedWhereSendFails connOf jid
    (createAndRunJob jid req createdBy clientID w).2.
Proof.
  intros Hinv.
  destruct (createAndRunJob_spec jid req createdBy clientID w)
    as (success & job & -> & _ & Hclient & _ & Hfail & _ & _).
  intros row err Hin Hmulti Hfails. cbn in Hin.
  apply upsert_elem in Hin as [->|Hin]; [|by eapply Hinv].
  rewrite Hclient in Hfails. by destruct (Hfail err Hfails) as (_ & ? & ?).
Qed.

Lemma executeSequentially_failedWhereSendFails jid req createdBy orderedClients :
  forall w,
    failedWhereSendFails connOf jid w ->
    failedWhereSendFails connOf jid
      (executeSequentially jid req createdBy orderedClients w).2.
Proof.
  induction orderedClients as [|clientID rest IH]; intros w Hinv; [exact Hinv|].
  rewrite executeSequentially_cons.
  pose proof (createAndRunJob_failedWhereSendFails jid req createdBy clientID w Hinv)
    as Hinv1.
  destruct (createAndRunJob_spec jid req createdBy clientID w)
    as (success & job & Hrun & _ & Hclient & _ & Hfail & _ & _).
  rewrite Hrun in Hinv1 |- *. cbn in Hinv1.
  destruct success.
  - rewrite awaitResult_spec.
    assert (Hinv2 : failedWhereSendFails connOf jid
              {| rows := upsert (withStatus job (finishes (ClientID job)))
                                (upsert job (rows w));
                 issued := S (issued w); sent := sent w ++ [clientID] |}).
    { intros row err Hin Hmulti Hfails. cbn in Hin.
      apply upsert_elem in Hin as [->|Hin]; [|by eapply Hinv1].
      cbn in Hfails. rewrite Hclient in Hfails.
      by destruct (Hfail err Hfails) as (? & _). }
    destruct (AbortOnError req && _); [exact Hinv2 | by apply IH].
  - destruct (AbortOnError req); [exact Hinv1 | by apply IH].
Qed.

Lemma executeConcurrently_failedWhereSendFails jid req createdBy orderedClients :
  forall w,
    failedWhereSendFails connOf jid w ->
    failedWhereSendFails connOf jid
      (executeConcurrently jid req createdBy orderedClients w).2.
Proof.
  induction orderedClients as [|clientID rest IH]; intros w Hinv; [exact Hinv|].
  rewrite executeConcurrently_cons. apply IH.
  by apply createAndRunJob_failedWhereSendFails.
Qed.

Lemma filter_all {A : Type} (Q : A -> Prop) `{forall x, Decision (Q x)} (l : list A) :
  Forall Q l -> filter Q l = l.
Proof.
  induction 1 as [|x l Hx _ IH]; [reflexivity|].
  rewrite filter_cons_True by exact Hx. by rewrite IH.
Qed.

Lemma filter_none {A : Type} (Q : A -> Prop) `{forall x, Decision (Q x)} (l : list A) :
  Forall (fun x => ~ Q x) l -> filter Q l = [].
Proof.
  induction 1 as [|x l Hx _ IH]; [reflexivity|].
  by rewrite filter_cons_False.
Qed.

Lemma handlePostMultiClientCommand_world {P : Type} (repo : ClientRepository P)
    now curUser req w :
  validateMultiJobRequest repo now req = None ->
  (handlePostMultiClientCommand repo now curUser req w).2
  = (executeMultiClientJob (generateNewJobID (issued w)) req curUser (ClientIDs req)
       {| rows := rows w; issued := S (issued w); sent := sent w |}).2.
Proof.
  intros Hvalid. unfold Jobs.handlePostMultiClientCommand. rewrite Hvalid.
  unfold bind, newJID, ret.
  by destruct (executeMultiClientJob _ _ _ _ _) as [[] w'].
Qed.

(** *** The rows that an execution leaves *)

Local Abbreviation freshJID w :=
  (forall row n, row ∈ rows w -> issued w <= n -> JID row <> generateNewJobID n).

Lemma createAndRunJob_row jid req createdBy clientID w
    (Hfresh : freshJID w) :
  exists success job,
    createAndRunJob jid req createdBy clientID w
    = ((success, job),
       {| rows := rows w ++ [job]; issued := S (issued w);
          sent := sent w ++ [clientID] |})
    /\ JID job = generateNewJobID (issued w)
    /\ ClientID job = clientID
    /\ MultiJobID job = Some jid
    /\ (forall err, sendFails (connOf clientID) err ->
          success = false /\ Status job = JobStatusFailed
          /\ Error job = "failed to send request: " +:+ err)
    /\ (starts decodeResponse (connOf clientID) -> success = true).
Proof.
  destruct (createAndRunJob_spec jid req createdBy clientID w)
    as (success & job & Hrun & Hjid & Hclient & Hmulti & Hfail & Hstart & _).
  exists success, job. rewrite Hrun.
  rewrite upsert_fresh by (intros row Hin; rewrite Hjid; by apply Hfresh).
  do 4 (split; [done|]). split; [exact Hfail|].
  intros Hstarts. by destruct (Hstart Hstarts).
Qed.

Lemma freshJID_row w w1 job
    (Hinj : forall n m, generateNewJobID n = generateNewJobID m -> n = m)
    (Hfresh : freshJID w)
    (Hrows : rows w1 = rows w ++ [job])
    (Hissued : issued w1 = S (issued w))
    (Hjid : JID job = generateNewJobID (issued w)) :
  freshJID w1.
Proof.
  intros row n Hin Hle. rewrite Hrows in Hin. rewrite Hissued in Hle.
  apply elem_of_app in Hin as [Hin|Hin].
  - apply Hfresh; [exact Hin | lia].
  - apply list_elem_of_singleton in Hin as ->. rewrite Hjid.
    intros Heq. apply Hinj in Heq. lia.
Qed.

(** One client of the sequential mode: its job is the new last row, and the
    execution stops there or goes on with the next client; it goes on when
    errors do not abort, and when the command starts and succeeds. *)
Lemma executeSequentially_one jid req createdBy clientID w
    (Hfresh : freshJID w) :
  exists job w1,
    rows w1 = rows w ++ [job]
    /\ issued w1 = S (issued w)
    /\ sent w1 = sent w ++ [clientID]
    /\ JID job = generateNewJobID (issued w)
    /\ ClientID job = clientID
    /\ MultiJobID job = Some jid
    /\ (forall err, sendFails (connOf clientID) err ->
          Status job = JobStatusFailed
          /\ Error job = "failed to send request: " +:+ err)
    /\ ((forall rest,
           executeSequentially jid req createdBy (clientID :: rest) w = (tt, w1))
        \/ (forall rest,
              executeSequentially jid req createdBy (clientID :: rest) w
              = executeSequentially jid req createdBy rest w1))
    /\ (AbortOnError req = false
        \/ (starts decodeResponse (connOf clientID)
            /\ finishes clientID = JobStatusSuccessful) ->
        forall rest,
          executeSequentially jid req createdBy (clientID :: rest) w
          = executeSequentially jid req createdBy rest w1).
Proof.
  destruct (createAndRunJob_row jid req createdBy clientID w Hfresh)
    as (success & job & Hrun & Hjid & Hclient & Hmulti & Hfail & Hstart).
  destruct success.
  - set (done := withStatus job (finishes clientID)).
    exists done, {| rows := rows w ++ [done]; issued := S (issued w);
                    sent := sent w ++ [clientID] |}.
    do 6 (split; [done|]).
    split; [intros err Hsend; by destruct (Hfail err Hsend)|].
    assert (Hstep : forall rest,
              executeSequentially jid req createdBy (clientID :: rest) w
              = if AbortOnError req
                   && negb (bool_decide (finishes clientID = JobStatusSuccessful))
                then (tt, {| rows := rows w ++ [done]; issued := S (issued w);
                             sent := sent w ++ [clientID] |})
                else executeSequentially jid req createdBy rest
                       {| rows := rows w ++ [done]; issued := S (issued w);
                          sent := sent w ++ [clientID] |}).
    { intros rest. rewrite executeSequentially_cons, Hrun, awaitResult_spec, Hclient.
      cbn [rows issued sent].
      rewrite (upsert_last job _ (rows w));
        [reflexivity | reflexivity |].
      intros row Hin. rewrite Hjid. by apply Hfresh. }
    destruct (AbortOnError req
              && negb (bool_decide (finishes clientID = JobStatusSuccessful)))
      eqn:Hstop.
    + split; [left; exact Hstep|].
      apply andb_true_iff in Hstop as [Habort Hstatus].
      intros [Hno|[_ Hok]]; [congruence|].
      rewrite bool_decide_eq_true_2 in Hstatus by exact Hok. discriminate.
    + split; [right; exact Hstep | intros _; exact Hstep].
  - exists job, {| rows := rows w ++ [job]; issued := S (issued w);
                   sent := sent w ++ [clientID] |}.
    do 6 (split; [done|]).
    split; [intros err Hsend; by destruct (Hfail err Hsend) as (_ & ? & ?)|].
    assert (Hstep : forall rest,
              executeSequentially jid req createdBy (clientID :: rest) w
              = if AbortOnError req
                then (tt, {| rows := rows w ++ [job]; issued := S (issued w);
                             sent := sent w ++ [clientID] |})
                else executeSequentially jid req createdBy rest
                       {| rows := rows w ++ [job]; issued := S (issued w);
                          sent := sent w ++ [clientID] |}).
    { intros rest. by rewrite executeSequentially_cons, Hrun. }
    destruct (AbortOnError req) eqn:Habort.
    + split; [left; exact Hstep|].
      intros [Hno|[Hstarts _]]; [discriminate|]. by specialize (Hstart Hstarts).
    + split; [right; exact Hstep | intros _; exact Hstep].
Qed.

(** One client of the concurrent mode: its job is the new last row, and the
    execution goes on with the next client. *)
Lemma executeConcurrently_one jid req createdBy clientID w
    (Hfresh : freshJID w) :
  exists job w1,
    rows w1 = rows w ++ [job]
    /\ issued w1 = S (issued w)
    /\ sent w1 = sent w ++ [clientID]
    /\ JID job = generateNewJobID (issued w)
    /\ ClientID job = clientID
    /\ MultiJobID job = Some jid
    /\ (forall err, sendFails (connOf clientID) err ->
          Status job = JobStatusFailed
          /\ Error job = "failed to send request: " +:+ err)
    /\ ((forall rest,
           executeConcurrently jid req createdBy (clientID :: rest) w = (tt, w1))
        \/ (forall rest,
              executeConcurrently jid req createdBy (clientID :: rest) w
              = executeConcurrently jid req createdBy rest w1))
    /\ (True ->
        forall rest,
          executeConcurrently jid req createdBy (clientID :: rest) w
          = executeConcurrently jid req createdBy rest w1).
Proof.
  destruct (createAndRunJob_row jid req createdBy clientID w Hfresh)
    as (success & job & Hrun & Hjid & Hclient & Hmulti & Hfail & _).
  exists job, {| rows := rows w ++ [job]; issued := S (issued w);
                 sent := sent w ++ [clientID] |}.
  do 6 (split; [done|]).
  split; [intros err Hsend; by destruct (Hfail err Hsend) as (_ & ? & ?)|].
  assert (Hstep : forall rest,
            executeConcurrently jid req createdBy (clientID :: rest) w
            = executeConcurrently jid req createdBy rest
                {| rows := rows w ++ [job]; issued := S (issued w);
                   sent := sent w ++ [clientID] |}).
  { intros rest. by rewrite executeConcurrently_cons, Hrun. }
  split; [right; exact Hstep | intros _; exact Hstep].
Qed.

(** An execution that takes the clients one by one, each as the lemmas above
    describe, reaches every client that the clients before it let it reach,
    and keeps the rows that it has appended. *)
Section Reach.
Variable jid : string.
Variable exec : list string -> M unit.
Variable continues : string -> Prop.
Hypothesis Hinj : forall n m, generateNewJobID n = generateNewJobID m -> n = m.
Hypothesis exec_nil : forall w, exec [] w = (tt, w).
Hypothesis exec_one : forall clientID w,
  freshJID w ->
  exists job w1,
    rows w1 = rows w ++ [job]
    /\ issued w1 = S (issued w)
    /\ sent w1 = sent w ++ [clientID]
    /\ JID job = generateNewJobID (issued w)
    /\ ClientID job = clientID
    /\ MultiJobID job = Some jid
    /\ (forall err, sendFails (connOf clientID) err ->
          Status job = JobStatusFailed
          /\ Error job = "failed to send request: " +:+ err)
    /\ ((forall rest, exec (clientID :: rest) w = (tt, w1))
        \/ (forall rest, exec (clientID :: rest) w = exec rest w1))
    /\ (continues clientID -> forall rest, exec (clientID :: rest) w = exec rest w1).

Lemma exec_extends (orderedClients : list string) :
  forall w,
    freshJID w ->
    exists more later,
      rows (exec orderedClients w).2 = rows w ++ more
      /\ sent (exec orderedClients w).2 = sent w ++ later.
Proof.
  induction orderedClients as [|clientID rest IH]; intros w Hfresh.
  - exists [], []. rewrite exec_nil. cbn. by rewrite !app_nil_r.
  - destruct (exec_one clientID w Hfresh)
      as (job & w1 & Hrows & Hissued & Hsent & Hjid & _ & _ & _ & [Hstop|Hgo] & _).
    + exists [job], [clientID]. by rewrite Hstop.
    + rewrite Hgo.
      destruct (IH w1 (freshJID_row w w1 job Hinj Hfresh Hrows Hissued Hjid))
        as (more & later & -> & ->).
      exists (job :: more), (clientID :: later).
      rewrite Hrows, Hsent, <- !app_assoc. by cbn.
Qed.

Lemma exec_reaches (failing : string) (post : list string) (err : string)
    (Hsend : sendFails (connOf failing) err) :
  forall pre w,
    freshJID w ->
    (forall c, c ∈ pre -> continues c) ->
    exists done failed more later,
      rows (exec (pre ++ failing :: post) w).2 = rows w ++ done ++ failed :: more
      /\ sent (exec (pre ++ failing :: post) w).2 = sent w ++ pre ++ failing :: later
      /\ length done = length pre
      /\ Forall (fun job => MultiJobID job = Some jid) done
      /\ ClientID failed = failing
      /\ MultiJobID failed = Some jid
      /\ Status failed = JobStatusFailed
      /\ Error failed = "failed to send request: " +:+ err.
Proof.
  induction pre as [|c pre IH]; intros w Hfresh Hpre.
  - cbn [app].
    destruct (exec_one failing w Hfresh)
      as (job & w1 & Hrows & Hissued & Hsent & Hjid & Hclient & Hmulti & Hfail
          & [Hstop|Hgo] & _);
      destruct (Hfail err Hsend) as [Hstatus Herr].
    + exists [], job, [], []. rewrite Hstop. cbn [snd app].
      by rewrite Hrows, Hsent.
    + rewrite Hgo.
      destruct (exec_extends post w1
                  (freshJID_row w w1 job Hinj Hfresh Hrows Hissued Hjid))
        as (more & later & -> & ->).
      exists [], job, more, later. rewrite Hrows, Hsent, <- !app_assoc. by cbn.
  - cbn [app].
    destruct (exec_one c w Hfresh)
      as (job & w1 & Hrows & Hissued & Hsent & Hjid & Hclient & Hmulti & _ & _ & Hgo).
    rewrite (Hgo (Hpre c (list_elem_of_here _ _))).
    destruct (IH w1 (freshJID_row w w1 job Hinj Hfresh Hrows Hissued Hjid))
      as (done & failed & more & later & -> & -> & Hlen & Hall & Hrest).
    { intros x Hx. apply Hpre. by right. }
    exists (job :: done), failed, more, later.
    rewrite Hrows, Hsent, <- !app_assoc. cbn.
    split; [reflexivity|]. split; [reflexivity|]. split; [by rewrite Hlen|].
    split; [by constructor | exact Hrest].
Qed.

End Reach.

(** C5: when the server dispatches [run_cmd] for a job and sending the request
    over the client's connection fails, the job is recorded with the status
    failed and with the dispatch error; the request that created a
    multi-client job is answered with success all the same, each of its
    jobs whose dispatch fails is recorded so, and every client of the
    request that the execution reaches and whose connection fails to send
    has its failed job among the stored jobs of the multi-client job, at the
    place of the client in the request. *)
Theorem dispatch_failure_marks_job_failed {P : Type} (repo : ClientRepository P)
    (now : Time) (curUser : string) (req : MultiJobRequest) (w : World)
    (Hvalid : validateMultiJobRequest repo now req = None)
    (Hnew : forall row, row ∈ rows w ->
                        MultiJobID row <> Some (generateNewJobID (issued w))) :
  (forall multiJobID createdBy clientID err,
      sendFails (connOf clientID) err ->
      exists job w',
        createAndRunJob multiJobID req createdBy clientID w = ((false, job), w')
        /\ GetByJID w' (JID job) = Some job
        /\ ClientID job = clientID
        /\ Status job = JobStatusFailed
        /\ Error job = "failed to send request: " +:+ err)
  /\ (handlePostMultiClientCommand repo now curUser req w).1
     = {| StatusCode := 200; Body := Data (generateNewJobID (issued w)) |}
  /\ failedWhereSendFails connOf (generateNewJobID (issued w))
       (handlePostMultiClientCommand repo now curUser req w).2
  /\ (forall pre failing post err,
        freshIDs generateNewJobID w ->
        ClientIDs req = pre ++ failing :: post ->
        sendFails (connOf failing) err ->
        ExecuteConcurrently req = true
        \/ AbortOnError req = false
        \/ (forall c, c ∈ pre ->
              starts decodeResponse (connOf c) /\ finishes c = JobStatusSuccessful) ->
        exists failed later,
          GetMultiJob (handlePostMultiClientCommand repo now curUser req w).2
            (generateNewJobID (issued w)) !! length pre = Some failed
          /\ ClientID failed = failing
          /\ Status failed = JobStatusFailed
          /\ Error failed = "failed to send request: " +:+ err
          /\ sent (handlePostMultiClientCommand repo now curUser req w).2
             = sent w ++ pre ++ failing :: later).
Proof.
  split; [|split; [|split]].
  - intros multiJobID createdBy clientID err Hfails.
    destruct (createAndRunJob_spec multiJobID req createdBy clientID w)
      as (success & job & Hrun & _ & Hclient & _ & Hfail & _ & _).
    destruct (Hfail err Hfails) as (-> & Hstatus & Herr).
    eexists job, _. split; [exact Hrun|].
    split; [|by auto]. rewrite <- Hclient. apply GetByJID_upsert.
  - unfold Jobs.handlePostMultiClientCommand. rewrite Hvalid.
    unfold bind, newJID, ret.
    by destruct (executeMultiClientJob _ _ _ _ _) as [[] w'].
  - unfold Jobs.handlePostMultiClientCommand. rewrite Hvalid.
    unfold bind at 1. unfold newJID at 1. unfold bind at 1.
    set (w1 := {| rows := rows w; issued := S (issued w); sent := sent w |}).
    assert (Hinv : failedWhereSendFails connOf (generateNewJobID (issued w)) w1).
    { intros row err Hin Hmulti _. by destruct (Hnew row Hin). }
    assert (Hdone : failedWhereSendFails connOf (generateNewJobID (issued w))
              (executeMultiClientJob (generateNewJobID (issued w)) req curUser
                 (ClientIDs req) w1).2).
    { unfold Jobs.executeMultiClientJob. destruct (ExecuteConcurrently req).
      - by apply executeConcurrently_failedWhereSendFails.
      - by apply executeSequentially_failedWhereSendFails. }
    by destruct (executeMultiClientJob _ _ _ _ _) as [[] w'].
  - intros pre failing post err [Hinj Hfresh] Hclients Hsend Hreached.
    set (jid := generateNewJobID (issued w)).
    set (w1 := {| rows := rows w; issued := S (issued w); sent := sent w |}).
    assert (Hw1 : freshJID w1).
    { intros row n Hin Hle. cbn in Hin, Hle. apply Hfresh; [exact Hin | lia]. }
    assert (Hrun : exists done failed more later,
               rows (executeMultiClientJob jid req curUser (ClientIDs req) w1).2
               = rows w ++ done ++ failed :: more
               /\ sent (executeMultiClientJob jid req curUser (ClientIDs req) w1).2
                  = sent w ++ pre ++ failing :: later
               /\ length done = length pre
               /\ Forall (fun job => MultiJobID job = Some jid) done
               /\ ClientID failed = failing
               /\ MultiJobID failed = Some jid
               /\ Status failed = JobStatusFailed
               /\ Error failed = "failed to send request: " +:+ err).
    { unfold Jobs.executeMultiClientJob. rewrite Hclients.
      destruct (ExecuteConcurrently req) eqn:Hmode.
      - apply (exec_reaches jid (executeConcurrently jid req curUser)
                 (fun _ => True) Hinj (fun _ => eq_refl)
                 (fun c x Hx => executeConcurrently_one jid req curUser c x Hx)
                 failing post err Hsend pre w1 Hw1).
        done.
      - apply (exec_reaches jid (executeSequentially jid req curUser)
                 (fun c => AbortOnError req = false
                           \/ (starts decodeResponse (connOf c)
                               /\ finishes c = JobStatusSuccessful))
                 Hinj (fun _ => eq_refl)
                 (fun c x Hx => executeSequentially_one jid req curUser c x Hx)
                 failing post err Hsend pre w1 Hw1).
        intros c Hc. destruct Hreached as [Habs|[Hno|Hpre]];
          [discriminate | by left | right; by apply Hpre]. }
    rewrite (handlePostMultiClientCommand_world _ _ _ _ _ Hvalid).
    fold jid w1.
    destruct Hrun as (done & failed & more & later & Hrows & Hsent & Hlen & Hall
                      & Hclient & Hmulti & Hstatus & Herr).
    exists failed, later.
    split; [|by auto].
    unfold GetMultiJob. rewrite Hrows, !filter_app.
    rewrite (filter_none _ (rows w)), (filter_all _ _ Hall).
    + rewrite filter_cons_True by exact Hmulti. cbn [app].
      by apply list_lookup_middle.
    + apply Forall_forall. intros row Hin. by apply Hfresh.
Qed.

(** *** Sequential execution that aborts on error *)

Lemma executeSequentially_abort jid req createdBy failing post
    (Habort : AbortOnError req = true)
    (Hfails : dispatchFails connOf encodeJob decodeResponse failing)
    (Hinj : forall n m, generateNewJobID n = generateNewJobID m -> n = m) :
  forall pre w,
    (forall c, c ∈ pre ->
       starts decodeResponse (connOf c) /\ finishes c = JobStatusSuccessful) ->
    (forall row n, row ∈ rows w -> issued w <= n -> JID row <> generateNewJobID n) ->
    exists done failed w',
      executeSequentially jid req createdBy (pre ++ failing :: post) w = (tt, w')
      /\ rows w' = rows w ++ done ++ [failed]
      /\ sent w' = sent w ++ pre ++ [failing]
      /\ map ClientID done = pre
      /\ Forall (fun job => MultiJobID job = Some jid) (done ++ [failed])
      /\ ClientID failed = failing
      /\ Status failed = JobStatusFailed
      /\ (forall err, sendFails (connOf failing) err ->
                      Error failed = "failed to send request: " +:+ err).
Proof.
  induction pre as [|c pre IH]; intros w Hpre Hfresh.
  - cbn [app]. rewrite executeSequentially_cons.
    destruct (createAndRunJob_spec jid req createdBy failing w)
      as (success & job & -> & Hjid & Hclient & Hmulti & Hfail & _ & Hdispatch).
    destruct (Hdispatch Hfails) as (-> & Hstatus). rewrite Habort.
    exists [], job. eexists. split; [reflexivity|]. cbn.
    split; [apply upsert_fresh; intros row Hin; rewrite Hjid; by apply Hfresh|].
    do 4 (split; [by auto|]). split; [exact Hstatus|].
    intros err Hsend. by destruct (Hfail err Hsend) as (_ & _ & ?).
  - cbn [app]. rewrite executeSequentially_cons.
    destruct (createAndRunJob_spec jid req createdBy c w)
      as (success & job & -> & Hjid & Hclient & Hmulti & _ & Hstart & _).
    destruct (Hpre c) as [Hstarts Hfinishes]; [by left|].
    destruct (Hstart Hstarts) as (-> & Hstatus).
    rewrite awaitResult_spec, Hclient, Hfinishes, Habort. cbn [rows issued sent].
    rewrite bool_decide_eq_true_2 by reflexivity. cbn [negb andb].
    assert (Hjob : forall row, row ∈ rows w -> JID row <> JID job).
    { intros row Hin. rewrite Hjid. by apply Hfresh. }
    rewrite (upsert_fresh job (rows w) Hjob).
    rewrite (upsert_last job _ (rows w)) by (reflexivity || exact Hjob).
    set (finished := withStatus job JobStatusSuccessful).
    destruct (IH {| rows := rows w ++ [finished]; issued := S (issued w);
                    sent := sent w ++ [c] |})
      as (done & failed & w' & Hrun & Hrows & Hsent & Hdone & Hall & Hrest).
    { intros x Hx. apply Hpre. by right. }
    { intros row n Hin Hle. cbn in Hin, Hle.
      apply elem_of_app in Hin as [Hin|Hin].
      - apply Hfresh; [exact Hin | lia].
      - apply list_elem_of_singleton in Hin as ->. cbn. rewrite Hjid.
        intros Heq. apply Hinj in Heq. lia. }
    exists (finished :: done), failed, w'. split; [exact Hrun|].
    cbn in Hrows, Hsent. rewrite Hrows, Hsent, <- !app_assoc. cbn.
    repeat split; try tauto.
    + by rewrite Hclient, Hdone.
    + constructor; [exact Hmulti | exact Hall].
Qed.

(** C6: for a multi-client command with [execute_concurrently = false] and
    [abort_on_error = true], if the dispatch to some client fails, no job is
    created or dispatched for the clients after it: the stored multi-client
    job has exactly the jobs up to and including the first failed one. *)
Theorem abort_on_error_stops_at_first_failure {P : Type} (repo : ClientRepository P)
    (now : Time) (curUser : string) (req : MultiJobRequest) (w : World)
    (pre post : list string) (failing : string)
    (Hvalid : validateMultiJobRequest repo now req = None)
    (Hsequential : ExecuteConcurrently req = false)
    (Habort : AbortOnError req = true)
    (Hclients : ClientIDs req = pre ++ failing :: post)
    (Hpre : forall c, c ∈ pre ->
              starts decodeResponse (connOf c) /\ finishes c = JobStatusSuccessful)
    (Hfails : dispatchFails connOf encodeJob decodeResponse failing)
    (Hfresh : freshIDs generateNewJobID w) :
  let jid := generateNewJobID (issued w) in
  let w' := (handlePostMultiClientCommand repo now curUser req w).2 in
  map ClientID (GetMultiJob w' jid) = pre ++ [failing]
  /\ sent w' = sent w ++ pre ++ [failing]
  /\ exists failed,
       last (GetMultiJob w' jid) = Some failed
       /\ Status failed = JobStatusFailed
       /\ (forall err, sendFails (connOf failing) err ->
                       Error failed = "failed to send request: " +:+ err).
Proof.
  cbv zeta. destruct Hfresh as [Hinj Hfresh].
  rewrite (handlePostMultiClientCommand_world _ _ _ _ _ Hvalid).
  unfold Jobs.executeMultiClientJob. rewrite Hsequential, Hclients.
  destruct (executeSequentially_abort (generateNewJobID (issued w)) req curUser
              failing post Habort Hfails Hinj pre
              {| rows := rows w; issued := S (issued w); sent := sent w |} Hpre)
    as (done & failed & w' & -> & Hrows & Hsent & Hdone & Hall & Hclient & Hstatus & Herr).
  { intros row n Hin Hle. cbn in Hin, Hle. apply Hfresh; [exact Hin | lia]. }
  cbn in Hrows, Hsent |- *.
  assert (Hjobs : GetMultiJob w' (generateNewJobID (issued w)) = done ++ [failed]).
  { unfold GetMultiJob. rewrite Hrows, filter_app.
    rewrite (filter_none _ (rows w)), (filter_all _ _ Hall); [reflexivity|].
    apply Forall_forall. intros row Hin. by apply Hfresh. }
  rewrite Hjobs, map_app, Hdone. cbn [map]. rewrite Hclient.
  split; [reflexivity|]. split; [exact Hsent|].
  exists failed. split; [apply last_snoc | by split].
Qed.

End JobsFacts.

Section JobsExamples.
Import Clients API Jobs Fixtures JobFixtures.

Lemma uuid_inj n m : uuid n = uuid m -> n = m.
Proof.
  unfold uuid. intros Heq. apply String.app_inj in Heq. by apply pretty_nat_inj.
Qed.

Lemma dispatch_failure_marks_job_failed_witness :
  (forall multiJobID createdBy clientID err,
      sendFails (connections clientID) err ->
      exists job w',
        createAndRunJob uuid connections JID decode multiJobID
          (request ["client-1"; "client-2"] false) createdBy clientID noJobs
        = ((false, job), w')
        /\ GetByJID w' (JID job) = Some job
        /\ ClientID job = clientID
        /\ Status job = JobStatusFailed
        /\ Error job = "failed to send request: " +:+ err)
  /\ (handlePostMultiClientCommand uuid connections allSucceed JID decode registry later
        "test-user" (request ["client-1"; "client-2"] false) noJobs).1
     = {| StatusCode := 200; Body := Data "jid-0" |}
  /\ failedWhereSendFails connections "jid-0"
       (handlePostMultiClientCommand uuid connections allSucceed JID decode registry
          later "test-user" (request ["client-1"; "client-2"] false) noJobs).2
  /\ exists failed others,
       GetMultiJob
         (handlePostMultiClientCommand uuid connections allSucceed JID decode registry
            later "test-user" (request ["client-1"; "client-2"] false) noJobs).2
         "jid-0" !! 0 = Some failed
       /\ ClientID failed = "client-1"
       /\ Status failed = JobStatusFailed
       /\ Error failed = "failed to send request: send fake error"
       /\ sent (handlePostMultiClientCommand uuid connections allSucceed JID decode
                 registry later "test-user" (request ["client-1"; "client-2"] false)
                 noJobs).2
          = "client-1" :: others.
Proof.
  destruct (dispatch_failure_marks_job_failed uuid connections allSucceed JID decode
              registry later "test-user" (request ["client-1"; "client-2"] false) noJobs)
    as (Hjob & Hanswer & Hall & Hreached).
  - vm_compute. reflexivity.
  - intros row Hin. by apply elem_of_nil in Hin.
  - split; [exact Hjob|]. split; [exact Hanswer|]. split; [exact Hall|].
    apply (Hreached [] "client-1" ["client-2"] "send fake error").
    + split; [exact uuid_inj|]. intros row n Hin. by apply elem_of_nil in Hin.
    + reflexivity.
    + intros name wantReply payload. reflexivity.
    + right. left. reflexivity.
Defined.

(** The case "error on send request" of [TestHandlePostMultiClientCommand]:
    both jobs are stored, the first one failed. *)
Example error_on_send_request :
  map (fun job => (ClientID job, Status job, Error job))
      (GetMultiJob
         (handlePostMultiClientCommand uuid connections allSucceed JID decode registry
            later "test-user" (request ["client-1"; "client-2"] false) noJobs).2
         "jid-0")
  = [("client-1", JobStatusFailed, "failed to send request: send fake error");
     ("client-2", JobStatusSuccessful, EmptyString)].
Proof. vm_compute. reflexivity. Qed.

Lemma abort_on_error_stops_at_first_failure_witness :
  let w' := (handlePostMultiClientCommand uuid connections allSucceed JID decode
               registry later "test-user"
               (request ["client-2"; "client-1"; "client-2"] true) noJobs).2 in
  map ClientID (GetMultiJob w' "jid-0") = ["client-2"; "client-1"]
  /\ sent w' = ["client-2"; "client-1"]
  /\ exists failed,
       last (GetMultiJob w' "jid-0") = Some failed
       /\ Status failed = JobStatusFailed
       /\ (forall err, sendFails (connections "client-1") err ->
                       Error failed = "failed to send request: " +:+ err).
Proof.
  apply (abort_on_error_stops_at_first_failure uuid connections allSucceed JID decode
           registry later "test-user"
           (request ["client-2"; "client-1"; "client-2"] true) noJobs
           ["client-2"] ["client-2"] "client-1").
  - vm_compute. reflexivity.
  - reflexivity.
  - reflexivity.
  - reflexivity.
  - intros c Hin. apply list_elem_of_singleton in Hin as ->.
    split; [|reflexivity]. intros payload. eexists _, _. split; reflexivity.
  - intros job Hclient. unfold dispatch, Comm.SendRequestAndGetResponse.
    rewrite Hclient. discriminate.
  - split; [exact uuid_inj|]. intros row n Hin. by apply elem_of_nil in Hin.
Defined.

End JobsExamples.

(** ** The deletion of a ClientAuth *)
Section ClientsAuthFacts.
Import Clients API.
Context {P : Type} `{ClientProvider P}.

Lemma GetAllByClientAuthID_elem (repo : ClientRepository P) id now c :
  c ∈ GetAllByClientAuthID repo id now <->
  (exists key, clients repo !! key = Some c)
  /\ ClientAuthID c = id
  /\ Obsolete c (KeepLostClients repo) now = false.
Proof.
  unfold GetAllByClientAuthID, GetAll, getNonObsolete, rangeClients.
  rewrite !list_elem_of_filter, list_elem_of_fmap. split.
  - intros (Hid & Hobs & [key x] & -> & Hin).
    apply elem_of_map_to_list in Hin. eauto.
  - intros ((key & Hkey) & Hid & Hobs). repeat split; try assumption.
    exists (key, c). split; [reflexivity | by apply elem_of_map_to_list].
Qed.

(** C7: [DELETE /api/v1/clients-auth/{id}] without the parameter [force], for
    the id of a ClientAuth that has a bound client in the registry, active
    or disconnected, is answered with 409 and a conflict error, and leaves
    the ClientAuth store and the client registry as they are. *)
Theorem delete_bound_client_auth_conflicts (entries : list ClientsAuth.ClientAuth)
    (repo : ClientRepository P) (now : Time) (id key : string)
    (auth : ClientsAuth.ClientAuth) (c : Client)
    (Hexists : ClientsAuth.Get (ClientsAuth.StoreProvider entries) id = Some auth)
    (Hstored : clients repo !! key = Some c)
    (Hbound : ClientAuthID c = id)
    (Hkept : Obsolete c (KeepLostClients repo) now = false) :
  exists n,
    0 < n
    /\ ClientsAuth.handleDeleteClientAuth true (ClientsAuth.StoreProvider entries)
         repo now id EmptyString
       = ({| StatusCode := 409;
             Body := Failure ErrCodeClientAuthHasClient
                       ("Client Auth expected to have no active or disconnected bound client(s), got "
                        +:+ pretty n +:+ ".") EmptyString |},
          ClientsAuth.StoreProvider entries, repo).
Proof.
  exists (length (GetAllByClientAuthID repo id now)).
  assert (Hin : c ∈ GetAllByClientAuthID repo id now).
  { apply GetAllByClientAuthID_elem. eauto. }
  assert (Hlen : 0 < length (GetAllByClientAuthID repo id now)).
  { destruct (GetAllByClientAuthID repo id now); [by apply elem_of_nil in Hin|cbn; lia]. }
  split; [exact Hlen|].
  apply Nat.ltb_lt in Hlen.
  unfold ClientsAuth.handleDeleteClientAuth. cbn [negb String.eqb].
  by rewrite Hexists, Hlen.
Qed.

End ClientsAuthFacts.

Section ClientsAuthExamples.
Import Clients API Fixtures JobFixtures.

Lemma delete_bound_client_auth_conflicts_witness :
  exists n,
    0 < n
    /\ ClientsAuth.handleDeleteClientAuth true
         (ClientsAuth.StoreProvider
            [{| ClientsAuth.ID := "user1"; ClientsAuth.Password := "pswd1" |}])
         registry later "user1" EmptyString
       = ({| StatusCode := 409;
             Body := Failure ErrCodeClientAuthHasClient
                       ("Client Auth expected to have no active or disconnected bound client(s), got "
                        +:+ pretty n +:+ ".") EmptyString |},
          ClientsAuth.StoreProvider
            [{| ClientsAuth.ID := "user1"; ClientsAuth.Password := "pswd1" |}],
          registry).
Proof.
  apply (delete_bound_client_auth_conflicts
           [{| ClientsAuth.ID := "user1"; ClientsAuth.Password := "pswd1" |}]
           registry later "user1" "client-1"
           {| ClientsAuth.ID := "user1"; ClientsAuth.Password := "pswd1" |} client1);
    reflexivity.
Defined.

(** With [force=true] the bound clients and the ClientAuth are deleted. *)
Example delete_bound_client_auth_forced :
  let '(response, provider, repo) :=
    ClientsAuth.handleDeleteClientAuth true
      (ClientsAuth.StoreProvider
         [{| ClientsAuth.ID := "user1"; ClientsAuth.Password := "pswd1" |}])
      registry later "user1" "true" in
  response = {| StatusCode := 204; Body := Empty |}
  /\ ClientsAuth.GetAll provider = []
  /\ (GetAll repo later).1 = [].
Proof. vm_compute. auto. Qed.

End ClientsAuthExamples.

(** * More of the client repository *)
Section RepositoryMore.
Import Clients Runs.
Context {P : Type} `{ClientProvider P}.

Lemma Obsolete_disconnected c keep now :
  Obsolete c keep now = true -> DisconnectedAt c <> None.
Proof.
  unfold Obsolete. destruct keep; [|discriminate].
  by destruct (DisconnectedAt c).
Qed.

(** X1: [Save] and [GetByID]: after a [Save] that returns no error, the id of
    the client yields the client, unless the client is obsolete, and every
    other id yields what it yielded before. *)
Theorem Save_then_GetByID (s s' : ClientRepository P) (c : Client)
    (trace : list Event) (now : Time)
    (Hsaved : Save s c = (None, s', trace)) :
  GetByID s' (ID c) now
  = (if Obsolete c (KeepLostClients s) now then None else Some c, None)
  /\ (forall id, id <> ID c -> GetByID s' id now = GetByID s id now).
Proof.
  assert (Hs' : clients s' = <[ID c := c]> (clients s)
                /\ KeepLostClients s' = KeepLostClients s).
  { unfold Save in Hsaved. destruct (provider s) as [p|].
    - destruct (providerSave p c) as [p' [err|]]; [discriminate|].
      by injection Hsaved as <- _.
    - by injection Hsaved as <- _. }
  destruct Hs' as [Hcache Hkeep]. unfold GetByID. rewrite Hcache, Hkeep. split.
  - rewrite lookup_insert_eq. by destruct (Obsolete c (KeepLostClients s) now).
  - intros id Hne. by rewrite lookup_insert_ne.
Qed.

(** X2: [Delete] removes whatever is cached under the id of the client and
    nothing else; when the provider refuses, it returns the wrapped error and
    leaves the cache as it is. *)
Theorem Delete_then_GetByID (s : ClientRepository P) (c : Client) (now : Time) :
  match Clients.Delete s c with
  | (None, s', _) =>
      GetByID s' (ID c) now = (None, None)
      /\ (forall id, id <> ID c -> GetByID s' id now = GetByID s id now)
  | (Some err, s', trace) =>
      clients s' = clients s
      /\ trace = [ProviderDelete (ID c)]
      /\ exists p p' cause,
           provider s = Some p
           /\ providerDelete p (ID c) = (p', Some cause)
           /\ err = "failed to delete a client: " +:+ cause
  end.
Proof.
  assert (Hgone : forall s0 : ClientRepository P,
            GetByID (withClients s0 (delete (ID c) (clients s0))) (ID c) now
            = (None, None)
            /\ (forall id, id <> ID c ->
                  GetByID (withClients s0 (delete (ID c) (clients s0))) id now
                  = GetByID s0 id now)).
  { intros s0. unfold GetByID. cbn. split.
    - by rewrite lookup_delete_eq.
    - intros id Hne. by rewrite lookup_delete_ne. }
  unfold Clients.Delete. destruct (provider s) as [p|] eqn:Hp.
  - destruct (providerDelete p (ID c)) as [p' [cause|]] eqn:Hdel.
    + split; [reflexivity|]. split; [reflexivity|]. by exists p, p', cause.
    + apply (Hgone (withProvider s p')).
  - apply Hgone.
Qed.

(** *** What [DeleteObsolete] evicts *)

Lemma deleteObsoleteRange_exact keep now order :
  forall cache deleted,
    NoDup order.*1 ->
    (forall key client, (key, client) ∈ order ->
                        cache !! key = Some client /\ ID client = key) ->
    exists cache',
      deleteObsoleteRange keep now order cache deleted
      = (cache', deleted ++ filter (fun client => Obsolete client keep now = true) order.*2)
      /\ (forall key client, (key, client) ∈ order -> Obsolete client keep now = true ->
                             cache' !! key = None)
      /\ (forall key, (forall client, (key, client) ∈ order ->
                                      Obsolete client keep now = false) ->
                      cache' !! key = cache !! key).
Proof.
  induction order as [|[k c] rest IH]; intros cache deleted Hnodup Hin; cbn.
  - exists cache. rewrite app_nil_r. split; [reflexivity|].
    split; [intros key client Helem; by apply elem_of_nil in Helem | done].
  - destruct (Hin k c) as [Hk Hid]; [by left|]. rewrite Hk.
    apply NoDup_cons in Hnodup as [Hfresh Hnodup].
    assert (Hother : forall key client, (key, client) ∈ rest -> key <> k).
    { intros key client Helem ->. apply Hfresh.
      apply list_elem_of_fmap. by exists (k, client). }
    destruct (Obsolete c keep now) eqn:Hobs.
    + destruct (IH (delete (ID c) cache) (deleted ++ [c]) Hnodup)
        as (cache' & -> & Hnone & Hsame).
      { intros key client Helem. rewrite Hid.
        rewrite lookup_delete_ne by (apply not_eq_sym; by eapply Hother).
        apply Hin. by right. }
      exists cache'. rewrite decide_True by reflexivity.
      rewrite <- app_assoc. split; [reflexivity|]. split.
      * intros key client Helem Hobs'. apply elem_of_cons in Helem as [[= -> ->]|Helem].
        -- rewrite Hsame; [by rewrite Hid, lookup_delete_eq|].
           intros client Helem. destruct (Hother _ _ Helem eq_refl).
        -- by eapply Hnone.
      * intros key Hkept. destruct (decide (key = k)) as [->|Hne].
        { specialize (Hkept c). rewrite Hobs in Hkept.
          discriminate Hkept. by left. }
        rewrite Hsame; [by rewrite Hid, lookup_delete_ne|].
        intros client Helem. apply Hkept. by right.
    + destruct (IH cache deleted Hnodup) as (cache' & -> & Hnone & Hsame).
      { intros key client Helem. apply Hin. by right. }
      exists cache'. rewrite decide_False by discriminate.
      split; [reflexivity|]. split.
      * intros key client Helem Hobs'. apply elem_of_cons in Helem as [[= -> ->]|Helem].
        -- congruence.
        -- by eapply Hnone.
      * intros key Hkept. apply Hsame. intros client Helem. apply Hkept. by right.
Qed.

(** The cache and the list that the loop of [DeleteObsolete] leaves. *)
Lemma sweep_exact keep now (cache : gmap string Client) :
  keyedByID cache ->
  deleteObsoleteRange keep now (map_to_list cache) cache []
  = (filter (fun kv => Obsolete kv.2 keep now = false) cache,
     filter (fun client => Obsolete client keep now = true) (map_to_list cache).*2).
Proof.
  intros Hkeyed.
  destruct (deleteObsoleteRange_exact keep now (map_to_list cache) cache [])
    as (cache' & -> & Hnone & Hsame).
  { apply NoDup_fst_map_to_list. }
  { intros key client Helem. apply elem_of_map_to_list in Helem.
    split; [exact Helem | by apply Hkeyed]. }
  f_equal. apply map_eq. intros key.
  destruct (cache !! key) as [client|] eqn:Hlook.
  - destruct (Obsolete client keep now) eqn:Hobs.
    + rewrite (Hnone key client) by (by apply elem_of_map_to_list || exact Hobs).
      symmetry. apply map_lookup_filter_None. right.
      intros x Hx. cbn. congruence.
    + rewrite Hsame, Hlook.
      * symmetry. by apply map_lookup_filter_Some.
      * intros x Hx. apply elem_of_map_to_list in Hx. congruence.
  - rewrite Hsame, Hlook.
    + symmetry. apply map_lookup_filter_None. by left.
    + intros x Hx. apply elem_of_map_to_list in Hx. congruence.
Qed.

Lemma DeleteObsolete_succeeds (s s' : ClientRepository P) now deleted trace :
  keyedByID (clients s) ->
  DeleteObsolete s now = ((deleted, None), s', trace) ->
  clients s' = filter (fun kv => Obsolete kv.2 (KeepLostClients s) now = false) (clients s)
  /\ KeepLostClients s' = KeepLostClients s
  /\ deleted = filter (fun client => Obsolete client (KeepLostClients s) now = true)
                      (rangeClients s).
Proof.
  intros Hkeyed. unfold DeleteObsolete. rewrite (sweep_exact _ _ _ Hkeyed).
  destruct (provider s) as [p|].
  - destruct (providerDeleteObsolete p now) as [p' [err|]]; [discriminate|].
    by intros [= <- <- _].
  - by intros [= <- <- _].
Qed.

(** X3: [DeleteObsolete], when it returns no error, returns the obsolete clients
    of the cache, each once, and leaves the clients that are not obsolete;
    for every evicted client the trace has the deletion from the cache. *)
Theorem DeleteObsolete_evicts_the_obsolete (s s' : ClientRepository P) (now : Time)
    (deleted : list Client) (trace : list Event)
    (Hkeyed : keyedByID (clients s))
    (Hrun : DeleteObsolete s now = ((deleted, None), s', trace)) :
  deleted = filter (fun client => Obsolete client (KeepLostClients s) now = true)
                   (rangeClients s)
  /\ (forall key client,
        clients s' !! key = Some client <->
        clients s !! key = Some client
        /\ Obsolete client (KeepLostClients s) now = false)
  /\ (forall client, client ∈ deleted -> CacheDelete (ID client) ∈ trace).
Proof.
  destruct (DeleteObsolete_succeeds _ _ _ _ _ Hkeyed Hrun) as (Hcache & _ & Hdeleted).
  split; [exact Hdeleted|]. split.
  - intros key client. rewrite Hcache. apply map_lookup_filter_Some.
  - intros client Hin. unfold DeleteObsolete in Hrun.
    rewrite (sweep_exact _ _ _ Hkeyed) in Hrun. fold (rangeClients s) in Hrun.
    rewrite <- Hdeleted in Hrun.
    assert (Hev : CacheDelete (ID client) ∈ map (fun c => CacheDelete (ID c)) deleted).
    { apply list_elem_of_fmap. by exists client. }
    destruct (provider s) as [p|].
    + destruct (providerDeleteObsolete p now) as [p' [err|]]; [discriminate|].
      injection Hrun as _ <-. by right.
    + by injection Hrun as _ <-.
Qed.

Lemma map_to_list_filter_values (keep : option Duration) now (cache : gmap string Client) :
  filter (fun client => Obsolete client keep now = false)
         (map_to_list (filter (fun kv => Obsolete kv.2 keep now = false) cache)).*2
  ≡ₚ filter (fun client => Obsolete client keep now = false) (map_to_list cache).*2.
Proof.
  rewrite map_filter_alt.
  rewrite map_to_list_to_map.
  - induction (map_to_list cache) as [|[k c] l IH]; [reflexivity|]. cbn.
    destruct (Obsolete c keep now) eqn:Hobs.
    + rewrite !decide_False by discriminate. exact IH.
    + rewrite !decide_True by reflexivity. cbn.
      rewrite decide_True by exact Hobs. by rewrite IH.
  - eapply NoDup_fmap_fst.
    + intros k x y Hx Hy. apply list_elem_of_filter in Hx as [_ Hx], Hy as [_ Hy].
      apply elem_of_map_to_list in Hx, Hy. congruence.
    + apply NoDup_filter, NoDup_map_to_list.
Qed.

(** X4: [DeleteObsolete] does not change what the repository lists: after a call
    that returns no error, [GetByID] of every id, [Count] and
    [CountDisconnected] return what they returned before at the same
    instant, and [GetAll] returns the same clients. *)
Theorem DeleteObsolete_keeps_listings (s s' : ClientRepository P) (now : Time)
    (deleted : list Client) (trace : list Event)
    (Hkeyed : keyedByID (clients s))
    (Hrun : DeleteObsolete s now = ((deleted, None), s', trace)) :
  (forall id, GetByID s' id now = GetByID s id now)
  /\ (GetAll s' now).1 ≡ₚ (GetAll s now).1
  /\ Count s' now = Count s now
  /\ CountDisconnected s' now = CountDisconnected s now.
Proof.
  destruct (DeleteObsolete_succeeds _ _ _ _ _ Hkeyed Hrun) as (Hcache & Hkeep & _).
  assert (Hall : (GetAll s' now).1 ≡ₚ (GetAll s now).1).
  { unfold GetAll, getNonObsolete, rangeClients. cbn.
    rewrite Hcache, Hkeep. apply map_to_list_filter_values. }
  split; [|split; [exact Hall|split]].
  - intros id. unfold GetByID. rewrite Hcache, Hkeep.
    destruct (clients s !! id) as [client|] eqn:Hlook.
    + destruct (Obsolete client (KeepLostClients s) now) eqn:Hobs.
      * replace (filter _ (clients s) !! id) with (@None Client); [reflexivity|].
        symmetry. apply map_lookup_filter_None. right. intros x Hx. cbn. congruence.
      * replace (filter _ (clients s) !! id) with (Some client); [by rewrite Hobs|].
        symmetry. by apply map_lookup_filter_Some.
    + replace (filter _ (clients s) !! id) with (@None Client); [reflexivity|].
      symmetry. apply map_lookup_filter_None. by left.
  - unfold Count. unfold GetAll in Hall.
    destruct (getNonObsolete s' now) as [l' e'] eqn:H1.
    destruct (getNonObsolete s now) as [l e] eqn:H2.
    unfold getNonObsolete in H1, H2. injection H1 as <- <-. injection H2 as <- <-.
    f_equal. by apply Permutation_length.
  - unfold CountDisconnected. unfold GetAll, getNonObsolete in Hall. cbn in Hall.
    unfold getNonObsolete. f_equal. apply Permutation_length.
    by apply filter_Permutation.
Qed.

(** X5: [Count] is the sum of [CountActive] and [CountDisconnected]: an active
    client is never obsolete. *)
Theorem Count_is_active_plus_disconnected (s : ClientRepository P) (now : Time) :
  (Count s now).1 = (CountActive s).1 + (CountDisconnected s now).1.
Proof.
  unfold Count, CountActive, CountDisconnected, GetAllActive, getNonObsolete. cbn.
  set (l := rangeClients s).
  set (kept := fun client : Client => Obsolete client (KeepLostClients s) now = false).
  assert (Hactive : filter (fun client => DisconnectedAt client = None) l
                    = filter (fun client => DisconnectedAt client = None) (filter kept l)).
  { rewrite list_filter_filter. apply list_filter_iff. intros c. split; [|tauto].
    intros Hc. split; [exact Hc|]. unfold kept.
    destruct (Obsolete c (KeepLostClients s) now) eqn:Hobs; [|reflexivity].
    by destruct (Obsolete_disconnected _ _ _ Hobs). }
  rewrite Hactive, <- length_app.
  apply Permutation_length. symmetry. apply filter_app_complement.
Qed.

(** X6: [GetActiveByID] returns a client exactly when the id is cached with a
    client that is not disconnected; [GetByID] then returns the same client
    at every instant. *)
Theorem GetActiveByID_is_connected (s : ClientRepository P) (id : string) (c : Client) :
  (GetActiveByID s id = (Some c, None) <->
   clients s !! id = Some c /\ DisconnectedAt c = None)
  /\ (GetActiveByID s id = (Some c, None) ->
      forall now, GetByID s id now = (Some c, None)).
Proof.
  assert (Hiff : GetActiveByID s id = (Some c, None) <->
                 clients s !! id = Some c /\ DisconnectedAt c = None).
  { unfold GetActiveByID. destruct (clients s !! id) as [client|]; [|split; [discriminate|by intros [? _]]].
    destruct (DisconnectedAt client) as [t|] eqn:Hd.
    - split; [discriminate|]. intros [[= ->] Hnone]. congruence.
    - split; [by intros [= ->] | by intros [[= ->] _]]. }
  split; [exact Hiff|]. intros Hactive now. apply Hiff in Hactive as [Hlook Hnone].
  unfold GetByID. rewrite Hlook.
  destruct (Obsolete c (KeepLostClients s) now) eqn:Hobs; [|reflexivity].
  by destruct (Obsolete_disconnected _ _ _ Hobs).
Qed.

(** *** [GetUserClients] *)

Lemma filterRange_step (foreign : Regexp.ForeignCompile) keep now user filterOptions
    client rest result :
  filterRange foreign keep now user filterOptions (client :: rest) result
  = if Views.visible keep now user client then
      match clientMatchesFilters foreign client filterOptions with
      | (_, Some err) => (result, Some err)
      | (true, None) =>
          filterRange foreign keep now user filterOptions rest (result ++ [client])
      | (false, None) => filterRange foreign keep now user filterOptions rest result
      end
    else filterRange foreign keep now user filterOptions rest result.
Proof.
  cbn [filterRange]. unfold Views.visible.
  destruct (Obsolete client keep now); [reflexivity|].
  destruct (IsAdmin user); [reflexivity|].
  by destruct (HasAccess client (GetGroups user)).
Qed.

Lemma filterRange_without_error (foreign : Regexp.ForeignCompile) keep now user
    filterOptions order :
  forall result,
    (forall client, client ∈ order -> Views.visible keep now user client = true ->
                    (clientMatchesFilters foreign client filterOptions).2 = None) ->
    filterRange foreign keep now user filterOptions order result
    = (result ++ filter (fun client =>
                           Views.shown foreign keep now user filterOptions client = true)
                        order,
       None).
Proof.
  induction order as [|client rest IH]; intros result Hok.
  - cbn. by rewrite app_nil_r.
  - rewrite filterRange_step.
    assert (Hrest : forall c, c ∈ rest -> Views.visible keep now user c = true ->
                      (clientMatchesFilters foreign c filterOptions).2 = None).
    { intros c Hc. apply Hok. by right. }
    destruct (Views.visible keep now user client) eqn:Hvis.
    + specialize (Hok client (list_elem_of_here _ _) Hvis).
      destruct (clientMatchesFilters foreign client filterOptions) as [[|] [err|]] eqn:Hm;
        try discriminate Hok.
      * rewrite IH by exact Hrest.
        rewrite filter_cons_True by (unfold Views.shown; by rewrite Hvis, Hm).
        by rewrite <- app_assoc.
      * rewrite IH by exact Hrest.
        by rewrite filter_cons_False by (unfold Views.shown; by rewrite Hvis, Hm).
    + rewrite IH by exact Hrest.
      by rewrite filter_cons_False by (unfold Views.shown; by rewrite Hvis).
Qed.

Lemma filterRange_all_fail (foreign : Regexp.ForeignCompile) keep now user
    filterOptions err order :
  forall result,
    (forall client, client ∈ order -> Views.visible keep now user client = true ->
                    (clientMatchesFilters foreign client filterOptions).2 = Some err) ->
    (exists client, client ∈ order /\ Views.visible keep now user client = true) ->
    filterRange foreign keep now user filterOptions order result = (result, Some err).
Proof.
  induction order as [|client rest IH]; intros result Hfail (c & Hc & Hvis).
  - by apply elem_of_nil in Hc.
  - rewrite filterRange_step.
    destruct (Views.visible keep now user client) eqn:Hclient.
    + specialize (Hfail client (list_elem_of_here _ _) Hclient).
      destruct (clientMatchesFilters foreign client filterOptions) as [b [e|]];
        [|discriminate]. cbn in Hfail. injection Hfail as ->. by destruct b.
    + apply IH.
      * intros x Hx. apply Hfail. by right.
      * apply elem_of_cons in Hc as [->|Hc]; [congruence|]. by exists c.
Qed.

(** X7: For an administrator and without filters, [GetUserClients] returns,
    without an error, the clients that [GetAll] returns.  The two calls loop
    over the map one after the other, each in an order of its own: the
    clients are the same up to their order. *)
Theorem GetUserClients_admin_unfiltered (foreign : Regexp.ForeignCompile)
    (s : ClientRepository P) (user : User) (now : Time)
    (Hadmin : IsAdmin user = true) :
  (GetUserClients foreign s user [] now).1 ≡ₚ (GetAll s now).1
  /\ (GetUserClients foreign s user [] now).2 = None
  /\ (GetAll s now).2 = None.
Proof.
  unfold GetUserClients, getNonObsoleteFiltered, GetAll, getNonObsolete.
  rewrite filterRange_without_error by reflexivity. cbn [app fst snd].
  split; [|by split].
  erewrite list_filter_iff; [reflexivity|].
  intros c. unfold Views.shown, Views.visible. cbn.
  rewrite Hadmin. by destruct (Obsolete c (KeepLostClients s) now).
Qed.

(** X8: When no filter fails on a visible client, [GetUserClients] returns, without
    an error, the clients that are not obsolete, that the user has access
    to, and that match every filter, in the order of the iteration. *)
Theorem GetUserClients_without_error (foreign : Regexp.ForeignCompile)
    (s : ClientRepository P) (user : User) (filterOptions : list FilterOption)
    (now : Time)
    (Hok : forall client,
        client ∈ rangeClients s ->
        Views.visible (KeepLostClients s) now user client = true ->
        (clientMatchesFilters foreign client filterOptions).2 = None) :
  GetUserClients foreign s user filterOptions now
  = (filter (fun client =>
               Views.shown foreign (KeepLostClients s) now user filterOptions client = true)
            (rangeClients s),
     None).
Proof.
  unfold GetUserClients, getNonObsoleteFiltered.
  by rewrite filterRange_without_error.
Qed.

Lemma clientMatchesFilters_app (foreign : Regexp.ForeignCompile) (cl : Client)
    (before rest : list FilterOption) :
  clientMatchesFilters foreign cl (before ++ rest)
  = match clientMatchesFilters foreign cl before with
    | (true, None) => clientMatchesFilters foreign cl rest
    | refusal => refusal
    end.
Proof.
  induction before as [|f before IH]; [reflexivity|].
  cbn [app clientMatchesFilters].
  destruct (clientMatchesFilter foreign cl f) as [[|] [err|]]; try reflexivity.
  exact IH.
Qed.

Lemma filterRange_some_fail (foreign : Regexp.ForeignCompile) keep now user
    filterOptions err order :
  forall result,
    (forall client, client ∈ order -> Views.visible keep now user client = true ->
                    clientMatchesFilters foreign client filterOptions = (false, None)
                    \/ (clientMatchesFilters foreign client filterOptions).2 = Some err) ->
    (exists client, client ∈ order /\ Views.visible keep now user client = true
                    /\ (clientMatchesFilters foreign client filterOptions).2 = Some err) ->
    filterRange foreign keep now user filterOptions order result = (result, Some err).
Proof.
  induction order as [|client rest IH]; intros result Hall (c & Hc & Hvis & Herr).
  - by apply elem_of_nil in Hc.
  - rewrite filterRange_step.
    assert (Hrest : forall x, x ∈ rest -> Views.visible keep now user x = true ->
                      clientMatchesFilters foreign x filterOptions = (false, None)
                      \/ (clientMatchesFilters foreign x filterOptions).2 = Some err).
    { intros x Hx. apply Hall. by right. }
    destruct (Views.visible keep now user client) eqn:Hclient.
    + destruct (Hall client (list_elem_of_here _ _) Hclient) as [Hno|Hfail].
      * rewrite Hno. apply IH; [exact Hrest|].
        apply elem_of_cons in Hc as [->|Hc]; [|by exists c].
        rewrite Hno in Herr. discriminate.
      * destruct (clientMatchesFilters foreign client filterOptions) as [b [e|]];
          [|discriminate]. cbn in Hfail. injection Hfail as ->. by destruct b.
    + apply IH; [exact Hrest|].
      apply elem_of_cons in Hc as [->|Hc]; [congruence|]. by exists c.
Qed.

(** X9: A filter on a column that the clients do not have is an error only when
    a client reaches it.  With the filters before it free of errors:
    when some client is visible and matches the filters before it,
    [GetUserClients] returns the error and no client; when no client
    does, it returns no client and no error. *)
Theorem GetUserClients_unsupported_column (foreign : Regexp.ForeignCompile)
    (s : ClientRepository P) (user : User) (before : list FilterOption)
    (f : FilterOption) (filterOptions : list FilterOption) (now : Time)
    (Hcolumn : forall client,
        client ∈ rangeClients s ->
        exists clientMap, Encoded client = inl clientMap
                          /\ clientMap !! Column f = None)
    (Hbefore : forall client,
        client ∈ rangeClients s ->
        Views.visible (KeepLostClients s) now user client = true ->
        (clientMatchesFilters foreign client before).2 = None) :
  ((exists client,
       client ∈ rangeClients s
       /\ Views.shown foreign (KeepLostClients s) now user before client = true) ->
   GetUserClients foreign s user (before ++ f :: filterOptions) now
   = ([], Some ("unsupported filter column: " +:+ Column f)))
  /\ ((forall client,
         client ∈ rangeClients s ->
         Views.shown foreign (KeepLostClients s) now user before client = false) ->
      GetUserClients foreign s user (before ++ f :: filterOptions) now = ([], None)).
Proof.
  assert (Hreach : forall client,
             client ∈ rangeClients s ->
             Views.visible (KeepLostClients s) now user client = true ->
             clientMatchesFilters foreign client (before ++ f :: filterOptions)
             = if (clientMatchesFilters foreign client before).1
               then (false, Some ("unsupported filter column: " +:+ Column f))
               else (false, None)).
  { intros client Hin Hvis. rewrite clientMatchesFilters_app.
    specialize (Hbefore client Hin Hvis).
    destruct (clientMatchesFilters foreign client before) as [[|] [err|]];
      try discriminate Hbefore; [|reflexivity].
    destruct (Hcolumn client Hin) as (clientMap & Henc & Hnone).
    cbn. unfold clientMatchesFilter, clientToMap. by rewrite Henc, Hnone. }
  unfold GetUserClients, getNonObsoleteFiltered. split.
  - intros (client & Hin & Hshown). unfold Views.shown in Hshown.
    apply andb_true_iff in Hshown as [Hvis Hmatch].
    apply filterRange_some_fail.
    + intros c Hc Hv. rewrite (Hreach c Hc Hv).
      destruct (clientMatchesFilters foreign c before).1; [by right | by left].
    + exists client. split; [exact Hin|]. split; [exact Hvis|].
      by rewrite (Hreach client Hin Hvis), Hmatch.
  - intros Hnone. rewrite filterRange_without_error.
    + cbn [app]. f_equal. apply filter_none. apply Forall_forall.
      intros client Hin. unfold Views.shown.
      destruct (Views.visible (KeepLostClients s) now user client) eqn:Hvis;
        [|discriminate].
      rewrite (Hreach client Hin Hvis).
      destruct (clientMatchesFilters foreign client before).1; cbn; discriminate.
    + intros client Hin Hvis. rewrite (Hreach client Hin Hvis).
      specialize (Hnone client Hin). unfold Views.shown in Hnone.
      rewrite Hvis in Hnone. cbn in Hnone. by rewrite Hnone.
Qed.

(** X10: [clientMatchesFilters] is the conjunction of the filters: it returns true
    without an error exactly when every filter does. *)
Theorem clientMatchesFilters_all (foreign : Regexp.ForeignCompile) (cl : Client)
    (filterOptions : list FilterOption) :
  clientMatchesFilters foreign cl filterOptions = (true, None) <->
  Forall (fun f => clientMatchesFilter foreign cl f = (true, None)) filterOptions.
Proof.
  induction filterOptions as [|f rest IH]; cbn.
  - split; [constructor | reflexivity].
  - rewrite Forall_cons.
    destruct (clientMatchesFilter foreign cl f) as [[|] [err|]].
    + split; [discriminate | by intros [? _]].
    + rewrite IH. tauto.
    + split; [discriminate | by intros [? _]].
    + split; [discriminate | by intros [? _]].
Qed.

(** *** The initial clients *)

Lemma initial_cache_lookup (initClients : list Client) (cache : gmap string Client) id :
  fold_left (fun cache c => <[ID c := c]> cache) initClients cache !! id
  = match last (filter (fun c => ID c = id) initClients) with
    | Some c => Some c
    | None => cache !! id
    end.
Proof.
  induction initClients as [|c l IH] using rev_ind; [reflexivity|].
  rewrite fold_left_app, filter_app. cbn [fold_left].
  destruct (decide (ID c = id)) as [Heq|Hne].
  - rewrite filter_cons_True by exact Heq. rewrite filter_nil, last_snoc.
    by rewrite <- Heq, lookup_insert_eq.
  - rewrite filter_cons_False by exact Hne. rewrite filter_nil, app_nil_r.
    by rewrite lookup_insert_ne.
Qed.

(** X12: A new repository caches, for every id, the last of the initial clients
    with that id, and nothing for an id that no initial client has. *)
Theorem NewClientRepository_GetByID (initClients : list Client)
    (keepLostClients : option Duration) (id : string) (now : Time) :
  GetByID (NewClientRepository (P := P) initClients keepLostClients) id now
  = (match last (filter (fun c => ID c = id) initClients) with
     | Some c => if Obsolete c keepLostClients now then None else Some c
     | None => None
     end, None).
Proof.
  unfold GetByID, NewClientRepository, newClientRepositoryWithDB. cbn.
  rewrite initial_cache_lookup, lookup_empty.
  destruct (last (filter (fun c => ID c = id) initClients)) as [c|]; [|reflexivity].
  by destruct (Obsolete c keepLostClients now).
Qed.

(** *** The invariant of the cache *)

Lemma keyedByID_DeleteObsolete (s : ClientRepository P) now :
  keyedByID (clients s) -> keyedByID (clients (DeleteObsolete s now).1.2).
Proof.
  intros Hkeyed. unfold DeleteObsolete.
  destruct (deleteObsoleteRange (KeepLostClients s) now (map_to_list (clients s))
              (clients s) []) as [cache gone] eqn:Hsweep.
  assert (Hsub : keyedByID cache).
  { intros key client Hlook. apply Hkeyed.
    by eapply deleteObsoleteRange_shrinks. }
  destruct (provider s) as [p|]; [|exact Hsub].
  by destruct (providerDeleteObsolete p now) as [p' [err|]].
Qed.

(** X13: Whatever is saved, deleted and swept, and whatever the provider answers,
    the cache stores every client under the client's own id: [GetByID] of an
    id never returns a client with another id. *)
Theorem GetByID_returns_the_id (initClients : list Client)
    (keepLostClients : option Duration) (provider : option P) (ops : list Op)
    (id : string) (now : Time) (c : Client) :
  GetByID (run ops (newClientRepositoryWithDB initClients keepLostClients provider))
          id now = (Some c, None) ->
  ID c = id.
Proof.
  assert (Hkeyed : forall ops (s : ClientRepository P),
            keyedByID (clients s) -> keyedByID (clients (run ops s))).
  { clear. intros ops. induction ops as [|op ops IH]; intros s Hs; [exact Hs|].
    cbn. apply IH. destruct op; cbn.
    - by apply keyedByID_Save.
    - by apply keyedByID_Delete.
    - by apply keyedByID_DeleteObsolete. }
  specialize (Hkeyed ops _ (keyedByID_new initClients keepLostClients provider)).
  unfold GetByID.
  destruct (clients (run ops _) !! id) as [client|] eqn:Hlook; [|discriminate].
  destruct (Obsolete client _ now); [discriminate|].
  intros [= <-]. by apply Hkeyed.
Qed.

End RepositoryMore.

Section RepositoryMoreExamples.
Import Clients Runs Fixtures.

Lemma Save_then_GetByID_witness :
  GetByID (Save (cached None) active).1.2 "c2" later = (Some active, None)
  /\ (forall id, id <> "c2" ->
        GetByID (Save (cached None) active).1.2 id later
        = GetByID (cached None) id later).
Proof.
  exact (Save_then_GetByID (cached None) (Save (cached None) active).1.2 active
           (Save (cached None) active).2 later eq_refl).
Defined.

Lemma DeleteObsolete_evicts_the_obsolete_witness :
  [lost] = filter (fun client => Obsolete client (Some hour) later = true)
                  (rangeClients (cached None))
  /\ (forall key client,
        clients (DeleteObsolete (cached None) later).1.2 !! key = Some client <->
        clients (cached None) !! key = Some client
        /\ Obsolete client (Some hour) later = false)
  /\ (forall client, client ∈ [lost] -> CacheDelete (ID client) ∈ [CacheDelete "c1"]).
Proof.
  apply (DeleteObsolete_evicts_the_obsolete (cached None)
           (DeleteObsolete (cached None) later).1.2 later [lost] [CacheDelete "c1"]).
  - apply keyedByID_new.
  - vm_compute. reflexivity.
Defined.

Lemma DeleteObsolete_keeps_listings_witness :
  (forall id, GetByID (DeleteObsolete (cached None) later).1.2 id later
              = GetByID (cached None) id later)
  /\ (GetAll (DeleteObsolete (cached None) later).1.2 later).1
     ≡ₚ (GetAll (cached None) later).1
  /\ Count (DeleteObsolete (cached None) later).1.2 later = Count (cached None) later
  /\ CountDisconnected (DeleteObsolete (cached None) later).1.2 later
     = CountDisconnected (cached None) later.
Proof.
  apply (DeleteObsolete_keeps_listings (cached None) _ later [lost] [CacheDelete "c1"]).
  - apply keyedByID_new.
  - vm_compute. reflexivity.
Defined.

Lemma GetUserClients_admin_unfiltered_witness :
  (GetUserClients noForeign (cached None) {| IsAdmin := true; GetGroups := [] |} []
     later).1 ≡ₚ (GetAll (cached None) later).1
  /\ (GetUserClients noForeign (cached None) {| IsAdmin := true; GetGroups := [] |} []
        later).2 = None
  /\ (GetAll (cached None) later).2 = None.
Proof.
  apply (GetUserClients_admin_unfiltered noForeign (cached None)
           {| IsAdmin := true; GetGroups := [] |} later).
  reflexivity.
Defined.

Lemma GetUserClients_without_error_witness :
  GetUserClients noForeign (cached None) {| IsAdmin := true; GetGroups := [] |}
    [{| Column := "name"; Values := ["host-*"] |}] later
  = (filter (fun client =>
               Views.shown noForeign (Some hour) later
                 {| IsAdmin := true; GetGroups := [] |}
                 [{| Column := "name"; Values := ["host-*"] |}] client = true)
            (rangeClients (cached None)),
     None).
Proof.
  apply (GetUserClients_without_error noForeign (cached None)
           {| IsAdmin := true; GetGroups := [] |}
           [{| Column := "name"; Values := ["host-*"] |}] later).
  intros client Hin _. apply list_elem_of_fmap in Hin as ([key c] & -> & Hin).
  apply elem_of_map_to_list in Hin.
  destruct (decide (key = "c1")) as [->|Hne1].
  - vm_compute in Hin. by injection Hin as <-.
  - destruct (decide (key = "c2")) as [->|Hne2].
    + vm_compute in Hin. by injection Hin as <-.
    + unfold cached, newClientRepositoryWithDB in Hin. cbn in Hin.
      rewrite lookup_insert_ne, lookup_insert_ne, lookup_empty in Hin by done.
      discriminate.
Defined.

(** With the filter [host-*] the active client is listed; the lost one is
    obsolete at that instant. *)
Example GetUserClients_wildcard :
  (GetUserClients noForeign (cached None) {| IsAdmin := true; GetGroups := [] |}
     [{| Column := "name"; Values := ["host-*"] |}] later)
  = ([active], None).
Proof. vm_compute. reflexivity. Qed.

Lemma GetUserClients_unsupported_column_witness :
  ((exists client,
       client ∈ rangeClients (cached None)
       /\ Views.shown noForeign (Some hour) later {| IsAdmin := true; GetGroups := [] |}
            [{| Column := "name"; Values := ["host-2"] |}] client = true) ->
   GetUserClients noForeign (cached None) {| IsAdmin := true; GetGroups := [] |}
     [{| Column := "name"; Values := ["host-2"] |};
      {| Column := "os"; Values := ["linux"] |}] later
   = ([], Some "unsupported filter column: os"))
  /\ ((forall client,
         client ∈ rangeClients (cached None) ->
         Views.shown noForeign (Some hour) later {| IsAdmin := true; GetGroups := [] |}
           [{| Column := "name"; Values := ["host-2"] |}] client = false) ->
      GetUserClients noForeign (cached None) {| IsAdmin := true; GetGroups := [] |}
        [{| Column := "name"; Values := ["host-2"] |};
         {| Column := "os"; Values := ["linux"] |}] later = ([], None)).
Proof.
  assert (Hrange : forall client,
             client ∈ rangeClients (cached None) -> client = lost \/ client = active).
  { intros client Hin. apply list_elem_of_fmap in Hin as ([key c] & -> & Hin).
    apply elem_of_map_to_list in Hin.
    destruct (decide (key = "c1")) as [->|Hne1].
    - vm_compute in Hin. injection Hin as <-. by left.
    - destruct (decide (key = "c2")) as [->|Hne2].
      + vm_compute in Hin. injection Hin as <-. by right.
      + unfold cached, newClientRepositoryWithDB in Hin. cbn in Hin.
        rewrite lookup_insert_ne, lookup_insert_ne, lookup_empty in Hin by done.
        discriminate. }
  apply (GetUserClients_unsupported_column noForeign (cached None)
           {| IsAdmin := true; GetGroups := [] |}
           [{| Column := "name"; Values := ["host-2"] |}]
           {| Column := "os"; Values := ["linux"] |} [] later).
  - intros client Hin.
    destruct (Hrange client Hin) as [-> | ->]; eexists; split; reflexivity.
  - intros client Hin _.
    destruct (Hrange client Hin) as [-> | ->]; reflexivity.
Defined.

(** The unsupported column does not show when an earlier filter has turned
    every client away, and shows when a client gets as far as the filter. *)
Example GetUserClients_unsupported_column_second :
  GetUserClients noForeign (cached None) {| IsAdmin := true; GetGroups := [] |}
    [{| Column := "name"; Values := ["no-such-host"] |};
     {| Column := "os"; Values := ["linux"] |}] later = ([], None)
  /\ GetUserClients noForeign (cached None) {| IsAdmin := true; GetGroups := [] |}
       [{| Column := "name"; Values := ["host-2"] |};
        {| Column := "os"; Values := ["linux"] |}] later
     = ([], Some "unsupported filter column: os").
Proof. vm_compute. auto. Qed.

Lemma GetByID_returns_the_id_witness : ID active = "c2".
Proof.
  apply (GetByID_returns_the_id (P := SqliteProvider) [lost; active] (Some hour) None
           [OpDeleteObsolete later; OpSave active] "c2" later active).
  vm_compute. reflexivity.
Defined.

End RepositoryMoreExamples.

(** * The rows of the provider *)
Section SqliteFacts.
Import Clients Sqlite.
Context {Tunnel UpdatesStatus : Type}.

(** X14: A client that is written to a row and read back has the values it had,
    in every field that sqlite.go persists. *)
Theorem convert_convertToSqlite (v : Persisted.Client Tunnel UpdatesStatus) :
  exists row, convertToSqlite (Some v) = Some row /\ convert row = Some v.
Proof.
  eexists. split; [reflexivity|].
  destruct v as [id auth [t|]]; reflexivity.
Qed.

(** X15: A row with details that is read as a client and written back is the same
    row, when its [disconnected_at] is valid or is the zero value: the time
    of a [NullTime] that is not valid is not kept.  A row without details
    makes [convert] panic. *)
Theorem convertToSqlite_convert (row : Row.clientSqlite Tunnel UpdatesStatus)
    (details : Details.clientDetails Tunnel UpdatesStatus)
    (Hdetails : Row.Details row = Some details)
    (Hnull : Valid (Row.DisconnectedAt row) = true
             \/ Time (Row.DisconnectedAt row) = zeroTime) :
  exists v, convert row = Some v /\ convertToSqlite (Some v) = Some row.
Proof.
  destruct row as [id auth [t valid] d]. cbn in Hdetails, Hnull. subst d.
  eexists. split; [reflexivity|].
  destruct details. cbn. destruct valid; cbn.
  - reflexivity.
  - destruct Hnull as [Hv | ->]; [discriminate | reflexivity].
Qed.

(** X16: [convert] panics exactly on the rows without details, and a list of rows
    converts when each row has details, to as many clients. *)
Theorem convertClientList_length (res : list (Row.clientSqlite Tunnel UpdatesStatus)) :
  (forall row : Row.clientSqlite Tunnel UpdatesStatus,
      convert row = None <-> Row.Details row = None)
  /\ (Forall (fun row => Row.Details row <> None) res <->
      exists clients, convertClientList res = Some clients
                      /\ length clients = length res).
Proof.
  assert (Hpanic : forall row : Row.clientSqlite Tunnel UpdatesStatus,
            convert row = None <-> Row.Details row = None).
  { intros row. unfold convert. by destruct (Row.Details row). }
  split; [exact Hpanic|].
  induction res as [|cur rest IH]; cbn.
  - split; [by exists [] | constructor].
  - rewrite Forall_cons, IH. split.
    + intros [Hcur (clients & -> & Hlen)].
      destruct (convert cur) as [v|] eqn:Hv; [|by apply Hpanic in Hv].
      exists (v :: clients). cbn. by rewrite Hlen.
    + intros (clients & Hconv & Hlen).
      destruct (convert cur) as [v|] eqn:Hv; [|discriminate].
      destruct (convertClientList rest) as [tail|]; [|discriminate].
      injection Hconv as <-. cbn in Hlen. split.
      * intros Hnone. apply Hpanic in Hnone. congruence.
      * exists tail. split; [reflexivity | lia].
Qed.

End SqliteFacts.

Section SqliteQueries.
Import Clients Sqlite Fixtures.

Lemma selectedRow_not_stale start row : selectedRow start row = negb (staleRow start row).
Proof.
  unfold selectedRow, staleRow. destruct (DisconnectedAt row) as [t|]; [|reflexivity].
  apply Z.leb_antisym.
Qed.

Lemma sqliteDeleteObsolete_healthy (p : SqliteProvider) now :
  faults p = [] ->
  sqliteDeleteObsolete p now
  = (withRows p (filter (fun kv => staleRow (keepLostClientsStart p now) kv.2 = false)
                        (rows p)),
     None).
Proof. intros Hhealthy. unfold sqliteDeleteObsolete, nextFault. by rewrite Hhealthy. Qed.

Lemma sqliteGetAll_healthy (p : SqliteProvider) now :
  faults p = [] ->
  sqliteGetAll p now
  = (p, ((filter (fun kv => selectedRow (keepLostClientsStart p now) kv.2 = true)
                 (map_to_list (rows p))).*2,
         None)).
Proof. intros Hhealthy. unfold sqliteGetAll, nextFault. by rewrite Hhealthy. Qed.

(** X17: On a database that answers, [GetAll] and [DeleteObsolete] of the provider
    agree: [DeleteObsolete] deletes the rows that [GetAll] at the same
    instant leaves out, so that [GetAll] returns every row that is left, and
    returns what it returned before the deletion. *)
Theorem sqlite_GetAll_after_DeleteObsolete (p : SqliteProvider) (now : Clients.Time)
    (Hhealthy : faults p = []) :
  let swept := (sqliteDeleteObsolete p now).1 in
  (sqliteDeleteObsolete p now).2 = None
  /\ (sqliteGetAll swept now).2 = ((map_to_list (rows swept)).*2, None)
  /\ (sqliteGetAll swept now).2.1 ≡ₚ (sqliteGetAll p now).2.1.
Proof.
  cbv zeta. rewrite (sqliteDeleteObsolete_healthy p now Hhealthy). cbn [fst snd].
  rewrite (sqliteGetAll_healthy p now Hhealthy).
  rewrite (sqliteGetAll_healthy (withRows p _) now Hhealthy). cbn [fst snd].
  change (keepLostClientsStart (withRows p _) now) with (keepLostClientsStart p now).
  set (start := keepLostClientsStart p now). cbn [rows withRows].
  assert (Hperm : map_to_list (filter (fun kv => staleRow start kv.2 = false) (rows p))
                  ≡ₚ filter (fun kv => selectedRow start kv.2 = true)
                            (map_to_list (rows p))).
  { rewrite map_filter_alt, map_to_list_to_map.
    - rewrite (list_filter_iff _ (fun kv => selectedRow start kv.2 = true)); [reflexivity|].
      intros [k c]. rewrite selectedRow_not_stale. cbn.
      by destruct (staleRow start c).
    - eapply NoDup_fmap_fst.
      + intros k x y Hx Hy. apply list_elem_of_filter in Hx as [_ Hx], Hy as [_ Hy].
        apply elem_of_map_to_list in Hx, Hy. congruence.
      + apply NoDup_filter, NoDup_map_to_list. }
  assert (Hall : filter (fun kv => selectedRow start kv.2 = true)
                   (map_to_list (filter (fun kv => staleRow start kv.2 = false) (rows p)))
                 = map_to_list (filter (fun kv => staleRow start kv.2 = false) (rows p))).
  { apply filter_all. apply Forall_forall.
    intros [k c] Hin. apply elem_of_map_to_list in Hin.
    apply map_lookup_filter_Some in Hin as [_ Hin]. cbn in Hin.
    rewrite selectedRow_not_stale. cbn. by rewrite Hin. }
  split; [reflexivity|]. rewrite Hall. split; [reflexivity|].
  by rewrite Hperm.
Qed.

Lemma sqlite_GetAll_after_DeleteObsolete_witness :
  let p := {| rows := clients (cached None); keepLostClients := hour; faults := [] |} in
  let swept := (sqliteDeleteObsolete p later).1 in
  (sqliteDeleteObsolete p later).2 = None
  /\ (sqliteGetAll swept later).2 = ((map_to_list (rows swept)).*2, None)
  /\ (sqliteGetAll swept later).2.1 ≡ₚ (sqliteGetAll p later).2.1.
Proof.
  apply (sqlite_GetAll_after_DeleteObsolete
           {| rows := clients (cached None); keepLostClients := hour; faults := [] |}
           later).
  reflexivity.
Defined.

(** X18: With the same retention period, every row that the provider's
    [DeleteObsolete] deletes holds a client that the repository treats as
    obsolete at that instant: the provider compares whole seconds and never
    deletes earlier than the cache. *)
Theorem sqlite_deletes_only_obsolete (p p' : SqliteProvider) (now : Clients.Time)
    (id : string) (c : Client)
    (Hrun : sqliteDeleteObsolete p now = (p', None))
    (Hrow : rows p !! id = Some c)
    (Hgone : rows p' !! id = None) :
  Obsolete c (Some (keepLostClients p)) now = true.
Proof.
  unfold sqliteDeleteObsolete in Hrun.
  assert (Hstale : staleRow (keepLostClientsStart p now) c = true).
  { destruct (nextFault p) as [[e|] q] eqn:Hfault; [discriminate|].
    assert (Hq : rows q = rows p).
    { unfold nextFault in Hfault.
      destruct (faults p); injection Hfault; intros; by subst. }
    injection Hrun as <-. cbn in Hgone. rewrite Hq in Hgone.
    apply map_lookup_filter_None in Hgone as [Hgone|Hgone]; [congruence|].
    specialize (Hgone c Hrow). cbn in Hgone.
    by destruct (staleRow (keepLostClientsStart p now) c). }
  unfold staleRow, keepLostClientsStart, DATETIME in Hstale. unfold Obsolete.
  destruct (DisconnectedAt c) as [t|]; [|discriminate].
  apply Z.ltb_lt in Hstale. apply Z.ltb_lt.
  destruct (Z_lt_le_dec (t + keepLostClients p) now) as [Hlt|Hle]; [exact Hlt|].
  pose proof (Z.div_le_mono (now - keepLostClients p) t 1000000000) as Hmono.
  lia.
Qed.

Lemma sqlite_deletes_only_obsolete_witness :
  Obsolete lost (Some hour) later = true.
Proof.
  apply (sqlite_deletes_only_obsolete
           {| rows := clients (cached None); keepLostClients := hour; faults := [] |}
           (sqliteDeleteObsolete
              {| rows := clients (cached None); keepLostClients := hour; faults := [] |}
              later).1
           later "c1" lost); vm_compute; reflexivity.
Defined.

(** The converse fails within a second: a client whose retention ended half
    a second before the instant is obsolete for the repository, and its row
    stays, because the two instants of the comparison fall into the same
    second. *)
Example sqlite_keeps_within_the_second :
  let now := (later + 700000000)%Z in
  let halfSecondLate := named "c3" "host-3" (Some (2 * hour + 200000000)%Z) in
  Obsolete halfSecondLate (Some hour) now = true
  /\ staleRow (keepLostClientsStart
                 {| rows := ∅; keepLostClients := hour; faults := [] |} now)
              halfSecondLate = false.
Proof. vm_compute. auto. Qed.

End SqliteQueries.

Section SqliteExamples.
Import Clients Sqlite SqliteFixtures.

Lemma convertToSqlite_convert_witness :
  exists v, convert (sampleRow {| Time := 5%Z; Valid := true |}) = Some v
            /\ convertToSqlite (Some v) = Some (sampleRow {| Time := 5%Z; Valid := true |}).
Proof.
  apply (convertToSqlite_convert (sampleRow {| Time := 5%Z; Valid := true |}) _ eq_refl).
  by left.
Defined.

(** The time of a [NullTime] that is not valid is replaced by the zero
    value. *)
Example convertToSqlite_convert_not_valid :
  exists v, convert (sampleRow {| Time := 5%Z; Valid := false |}) = Some v
            /\ convertToSqlite (Some v)
               = Some (sampleRow {| Time := zeroTime; Valid := false |}).
Proof. eexists. split; reflexivity. Qed.

End SqliteExamples.

Section ValidationMore.
Import Validation.

(** X19: [ValidateInterpreter] returns nil for exactly four kinds of input:
    the empty interpreter, cmd, powershell, and tacoscript when the input is
    a script. *)
Theorem ValidateInterpreter_nil_iff (interpreter : string) (isScript : bool) :
  ValidateInterpreter interpreter isScript = None <->
  interpreter = EmptyString \/ interpreter = CmdShell \/ interpreter = PowerShell
  \/ (interpreter = Tacoscript /\ isScript = true).
Proof.
  unfold ValidateInterpreter.
  destruct (String.eqb_spec interpreter EmptyString) as [->|Hne].
  { split; auto. }
  destruct (String.eqb_spec interpreter Tacoscript) as [->|Ht].
  - destruct isScript; simpl.
    + split; auto.
    + split; [discriminate|].
      intros [H|[H|[H|[_ H]]]]; discriminate H.
  - rewrite andb_false_r.
    destruct (rangeContains interpreter validInputInterpreter) eqn:Hc.
    + apply rangeContains_In in Hc. simpl in Hc.
      split; [intros _|reflexivity].
      destruct Hc as [H|[H|[H|[]]]]; auto. congruence.
    + split; [discriminate|].
      intros H. exfalso.
      assert (Hin : In interpreter validInputInterpreter).
      { simpl. destruct H as [H|[H|[H|[H _]]]]; auto; contradiction. }
      apply rangeContains_In in Hin. congruence.
Qed.

End ValidationMore.

Section StringsFacts.
Import Strings MoreStrings.
Local Arguments Ascii.eqb : simpl never.

Lemma indexFrom_shift substr s i :
  (-1 <= indexFrom substr s 0)%Z /\
  indexFrom substr s i =
  (if (indexFrom substr s 0 <? 0)%Z then -1 else i + indexFrom substr s 0)%Z.
Proof.
  revert i. induction s as [|c rest IH]; intros i; simpl.
  - destruct (hasPrefix substr EmptyString); simpl; split; lia.
  - destruct (hasPrefix substr (String c rest)).
    + simpl. split; lia.
    + destruct (IH 1%Z) as [Hlow H1]. destruct (IH (i + 1)%Z) as [_ Hi].
      change (0 + 1)%Z with 1%Z. rewrite H1, Hi.
      destruct (indexFrom substr rest 0 <? 0)%Z eqn:Hneg; simpl.
      * split; [lia | reflexivity].
      * apply Z.ltb_ge in Hneg.
        replace (1 + indexFrom substr rest 0 <? 0)%Z with false
          by (symmetry; apply Z.ltb_ge; lia).
        split; lia.
Qed.

Lemma indexFrom_char (c a : ascii) (rest : string) (i : Z) :
  indexFrom (String c EmptyString) (String a rest) i =
  if Ascii.eqb c a then i
  else if (indexFrom (String c EmptyString) rest 0 <? 0)%Z then (-1)%Z
       else (i + 1 + indexFrom (String c EmptyString) rest 0)%Z.
Proof.
  cbn [indexFrom hasPrefix]. rewrite andb_true_r.
  destruct (Ascii.eqb c a); [reflexivity|].
  now destruct (indexFrom_shift (String c EmptyString) rest (i + 1)) as [_ ->].
Qed.

(** The first occurrence of a character: the string has none and [Index] is
    [-1], or [Index] is the length of the part before the first one. *)
Lemma Index_char (c : ascii) (s : string) :
  (Index s (String c EmptyString) = (-1)%Z /\ ~ In c (list_ascii_of_string s))
  \/ exists key rest,
       s = key +:+ String c rest /\ ~ In c (list_ascii_of_string key)
       /\ Index s (String c EmptyString) = Z.of_nat (String.length key).
Proof.
  unfold Index. induction s as [|a rest IH].
  - left. simpl. split; [reflexivity | tauto].
  - rewrite indexFrom_char. destruct (Ascii.eqb_spec c a) as [<-|Hne].
    + right. exists EmptyString, rest. simpl. split; [reflexivity|]. split; [tauto | reflexivity].
    + destruct IH as [[Hidx Hnot]|(key & rest' & -> & Hnot & Hidx)].
      * left. rewrite Hidx. simpl. split; [reflexivity|].
        intros [Heq|Hin]; [congruence | contradiction].
      * right. exists (String a key), rest'.
        split; [reflexivity|]. split.
        { simpl. intros [Heq|Hin]; [congruence | contradiction]. }
        rewrite Hidx.
        replace (Z.of_nat (String.length key) <? 0)%Z with false
          by (symmetry; apply Z.ltb_ge; lia).
        simpl String.length. lia.
Qed.

Lemma Index_first (c : ascii) (key rest : string) :
  ~ In c (list_ascii_of_string key) ->
  Index (key +:+ String c rest) (String c EmptyString) = Z.of_nat (String.length key).
Proof.
  intros Hnot.
  destruct (Index_char c (key +:+ String c rest)) as [[_ Habs]|(key' & rest' & Heq & Hnot' & ->)].
  - exfalso. apply Habs. clear -c. induction key as [|a key IH]; simpl; auto.
  - f_equal. clear -Heq Hnot Hnot'.
    revert key' Heq Hnot'. induction key as [|a key IH]; intros [|b key'] Heq Hnot'; simpl in *.
    + reflexivity.
    + injection Heq as <- _. exfalso. apply Hnot'. now left.
    + injection Heq as -> _. exfalso. apply Hnot. now left.
    + injection Heq as <- Heq. f_equal. apply IH; [tauto | exact Heq | tauto].
Qed.

Lemma sliceTo_app (key rest : string) :
  sliceTo (key +:+ rest) (String.length key) = key.
Proof. induction key as [|a key IH]; simpl; [now destruct rest | now rewrite IH]. Qed.

Lemma sliceFrom_app (key rest : string) :
  sliceFrom (key +:+ rest) (String.length key) = rest.
Proof. induction key as [|a key IH]; simpl; [now destruct rest | exact IH]. Qed.

Lemma splitAt_nonempty sep cur s : splitAt sep cur s <> [].
Proof.
  revert cur. induction s as [|c rest IH]; intros cur; simpl; [discriminate|].
  destruct (Ascii.eqb c sep); [discriminate | apply IH].
Qed.

Lemma ReplaceAll_space s : ReplaceAll s " " "\ " = escapeSpaces s.
Proof.
  unfold ReplaceAll. induction s as [|c rest IH]; simpl; [reflexivity|].
  rewrite Ascii.eqb_sym. destruct (Ascii.eqb c " "); simpl. all: now rewrite IH.
Qed.

Lemma escapeSpaces_without_space s :
  Contains s " " = false -> escapeSpaces s = s.
Proof.
  unfold Contains, Index. induction s as [|c rest IH]; [reflexivity|].
  rewrite indexFrom_char. cbn [escapeSpaces]. rewrite Ascii.eqb_sym.
  destruct (Ascii.eqb c " "); [discriminate|].
  intros H. f_equal. apply IH.
  destruct (indexFrom " " rest 0 <? 0)%Z eqn:Hneg.
  - apply Z.leb_gt. now apply Z.ltb_lt.
  - apply Z.ltb_ge in Hneg. apply Z.leb_gt in H. lia.
Qed.

Lemma escapeSpaces_head s rest : escapeSpaces s <> String " " rest.
Proof.
  destruct s as [|c s]; simpl; [discriminate|].
  destruct (Ascii.eqb_spec c " ") as [->|Hne]; [discriminate|].
  intros H. injection H as H _. contradiction.
Qed.

Lemma unescape_head (c : ascii) (t : string) :
  (forall rest, t <> String " " rest) ->
  replaceFrom "\ " " " 0 (String c t) = String c (replaceFrom "\ " " " 0 t).
Proof.
  intros Hhead. cbn [replaceFrom hasPrefix].
  destruct (Ascii.eqb "\" c); [|reflexivity].
  destruct t as [|d t]; [reflexivity|].
  destruct (Ascii.eqb_spec " " d) as [<-|Hd]; [|reflexivity].
  now destruct (Hhead t).
Qed.

Lemma unescape_escapeSpaces s : ReplaceAll (escapeSpaces s) "\ " " " = s.
Proof.
  unfold ReplaceAll. induction s as [|c rest IH]; [reflexivity|].
  cbn [escapeSpaces]. destruct (Ascii.eqb_spec c " ") as [->|Hsp].
  - change (replaceFrom "\ " " " 0 (String "\" (String " " (escapeSpaces rest))))
      with (String " " (replaceFrom "\ " " " 0 (escapeSpaces rest))).
    now rewrite IH.
  - rewrite unescape_head by (intros r; apply escapeSpaces_head).
    now rewrite IH.
Qed.

Lemma escapeSpaces_guarded s i :
  String.get (S i) (escapeSpaces s) = Some " "%char ->
  String.get i (escapeSpaces s) = Some "\"%char.
Proof.
  revert i. induction s as [|c rest IH]; intros i; simpl; [discriminate|].
  destruct (Ascii.eqb_spec c " ") as [->|Hsp].
  - destruct i as [|[|i]]; simpl.
    + reflexivity.
    + intros H. destruct (escapeSpaces rest) as [|d r] eqn:Hesc; simpl in H; [discriminate|].
      injection H as ->. exfalso. exact (escapeSpaces_head _ _ Hesc).
    + intros H. specialize (IH i). simpl in IH. exact (IH H).
  - destruct i as [|i]; simpl.
    + intros H. destruct (escapeSpaces rest) as [|d r] eqn:Hesc; simpl in H; [discriminate|].
      injection H as ->. exfalso. exact (escapeSpaces_head _ _ Hesc).
    + apply IH.
Qed.

End StringsFacts.

Section ExecFacts.
Import Strings MoreStrings Exec.

Lemma escaped_command (cmdStr : string) :
  (if Contains cmdStr " " then ReplaceAll cmdStr " " "\ " else cmdStr) = escapeSpaces cmdStr.
Proof.
  destruct (Contains cmdStr " ") eqn:Hc.
  - apply ReplaceAll_space.
  - symmetry. now apply escapeSpaces_without_space.
Qed.

Lemma arguments_last (execCtx : CmdExecutorContext) :
  exists front, arguments execCtx = front ++ [escapeSpaces (Command execCtx)].
Proof.
  unfold arguments. rewrite escaped_command. eexists. reflexivity.
Qed.

Lemma New_last (execCtx : CmdExecutorContext) :
  exists cmd, New execCtx = Some cmd /\ Dir cmd = WorkingDir execCtx
              /\ last (Args cmd) = Some (escapeSpaces (Command execCtx)).
Proof.
  unfold New. destruct (arguments_last execCtx) as [front ->].
  destruct (front ++ [escapeSpaces (Command execCtx)]) as [|name arg] eqn:Hargs.
  { now destruct front. }
  eexists. split; [reflexivity|]. split; [reflexivity|].
  cbn [Args]. rewrite <- Hargs. apply last_snoc.
Qed.

(** X20: [New] never indexes an empty argument slice, whatever the context:
    it returns a command in the working directory of the context, and the
    last argument of that command is the command string with its spaces
    escaped: replacing backslash-space by a space gives the command string
    back. *)
Theorem New_passes_the_command_last (execCtx : CmdExecutorContext) :
  exists cmd c,
    New execCtx = Some cmd /\ Dir cmd = WorkingDir execCtx
    /\ last (Args cmd) = Some c
    /\ ReplaceAll c "\ " " " = Command execCtx.
Proof.
  destruct (New_last execCtx) as (cmd & Hnew & Hdir & Hlast).
  exists cmd, (escapeSpaces (Command execCtx)).
  repeat (split; [assumption|]). apply unescape_escapeSpaces.
Qed.

(** X21: in the last argument of the command that [New] builds, no space is
    left bare: the argument does not start with a space, and every space of
    it comes right after a backslash. *)
Theorem New_escapes_every_space (execCtx : CmdExecutorContext) (cmd : Cmd) (c : string)
    (i : nat)
    (Hnew : New execCtx = Some cmd)
    (Hlast : last (Args cmd) = Some c) :
  String.get 0 c <> Some " "%char
  /\ (String.get (S i) c = Some " "%char -> String.get i c = Some "\"%char).
Proof.
  destruct (New_last execCtx) as (cmd' & Hnew' & _ & Hlast').
  assert (cmd' = cmd) as -> by congruence.
  assert (c = escapeSpaces (Command execCtx)) as -> by congruence.
  split; [|apply escapeSpaces_guarded].
  destruct (escapeSpaces (Command execCtx)) as [|d rest] eqn:Hesc; [discriminate|].
  simpl. intros H. injection H as ->. exact (escapeSpaces_head _ _ Hesc).
Qed.

Lemma New_escapes_every_space_witness :
  String.get 0 "ls\ -l" <> Some " "%char
  /\ (String.get 3 "ls\ -l" = Some " "%char -> String.get 2 "ls\ -l" = Some "\"%char).
Proof.
  apply (New_escapes_every_space
           {| Interpreter := "sh"; Command := "ls -l"; WorkingDir := "/tmp"; IsSudo := true |}
           {| Args := ["sudo"; "-n"; "sh"; "-c"; "ls\ -l"]; Dir := "/tmp" |}
           "ls\ -l" 2).
  - reflexivity.
  - reflexivity.
Defined.

End ExecFacts.

Section CommFacts.
Import Comm Replies.
Context {Req Resp : Type}.
Variable marshal : Req -> string + string.
Variable unmarshal : string -> Resp + string.
Variable reqT respT : string.

(** X22: [SendRequestAndGetResponse] returns a [ClientError] in two cases
    only, and in both the request has been encoded and sent without an
    error: the peer has replied with a failure, or it has replied with a
    success that cannot be decoded into a destination that is not nil. *)
Theorem SendRequestAndGetResponse_client_error (conn : Conn) (reqType : string) (req : Req)
    (successRespDest : option Resp) :
  (exists msg,
      (SendRequestAndGetResponse marshal unmarshal reqT respT conn reqType req
         successRespDest).2 = Some (ClientError msg))
  <-> exists reqBytes ok respBytes,
        marshal req = inl reqBytes
        /\ SendRequest conn reqType true reqBytes = (ok, respBytes, None)
        /\ (ok = false
            \/ (successRespDest <> None /\ exists err, unmarshal respBytes = inr err)).
Proof.
  unfold SendRequestAndGetResponse. split.
  - intros [msg H].
    destruct (marshal req) as [reqBytes|err] eqn:Hreq; [|discriminate].
    destruct (SendRequest conn reqType true reqBytes) as [[ok respBytes] [err|]] eqn:Hsend;
      [destruct ok; discriminate|].
    exists reqBytes, ok, respBytes. split; [reflexivity|]. split; [exact Hsend|].
    destruct ok; [right | now left].
    destruct successRespDest as [dest|]; [|discriminate].
    split; [discriminate|].
    destruct (unmarshal respBytes) as [resp|err] eqn:Hresp; [discriminate|].
    now exists err.
  - intros (reqBytes & ok & respBytes & -> & -> & [-> | [Hdest [err Herr]]]).
    + eexists. reflexivity.
    + destruct ok; [|eexists; reflexivity].
      destruct successRespDest as [dest|]; [|contradiction].
      rewrite Herr. eexists. reflexivity.
Qed.

(** X23: a value that the peer sends with [ReplySuccessJSON] arrives in the
    destination of [SendRequestAndGetResponse], and the call returns no
    error, when the value can be encoded and the decoding undoes the
    encoding. *)
Theorem ReplySuccessJSON_is_received (marshalResp : Resp -> string + string)
    (handler : string -> string -> bool * string) (reqType : string) (req : Req)
    (reqBytes respBytes : string) (dest resp : Resp)
    (Hreq : marshal req = inl reqBytes)
    (Hhandler : handler reqType reqBytes = ReplySuccessJSON marshalResp resp)
    (Hencode : marshalResp resp = inl respBytes)
    (Hdecode : unmarshal respBytes = inl resp) :
  SendRequestAndGetResponse marshal unmarshal reqT respT (peer handler) reqType req
    (Some dest) = (Some resp, None).
Proof.
  unfold SendRequestAndGetResponse, peer. cbn [SendRequest].
  rewrite Hreq, Hhandler. unfold ReplySuccessJSON. rewrite Hencode, Hdecode.
  reflexivity.
Qed.

(** X24: an error that the peer sends with [ReplyError], and a value that
    [ReplySuccessJSON] cannot encode, come back from
    [SendRequestAndGetResponse] as a [ClientError] that carries the message
    of the error; the destination is not written. *)
Theorem ReplyError_is_a_client_error (marshalResp : Resp -> string + string)
    (handler : string -> string -> bool * string) (reqType : string) (req : Req)
    (reqBytes msg : string) (dest : option Resp) (resp : Resp)
    (Hreq : marshal req = inl reqBytes)
    (Hhandler : handler reqType reqBytes = ReplyError (Some msg)
                \/ (handler reqType reqBytes = ReplySuccessJSON marshalResp resp
                    /\ marshalResp resp = inr msg)) :
  SendRequestAndGetResponse marshal unmarshal reqT respT (peer handler) reqType req dest
  = (dest, Some (ClientError ("client error: " +:+ msg))).
Proof.
  assert (Hreply : handler reqType reqBytes = (false, msg)).
  { destruct Hhandler as [H|[H Henc]]; [exact H|].
    rewrite H. unfold ReplySuccessJSON. now rewrite Henc. }
  unfold SendRequestAndGetResponse, peer. cbn [SendRequest].
  rewrite Hreq, Hreply. reflexivity.
Qed.

End CommFacts.

Section CommExamples.
Import Comm Replies.

Lemma ReplySuccessJSON_is_received_witness :
  SendRequestAndGetResponse (Req := string) (Resp := string) inl inl "string" "*string"
    (peer (fun _ payload => ReplySuccessJSON inl ("pong: " +:+ payload))) "ping" "hello"
    (Some EmptyString) = (Some "pong: hello", None).
Proof.
  apply (ReplySuccessJSON_is_received (Req := string) (Resp := string) inl inl
           "string" "*string" inl
           (fun _ payload => ReplySuccessJSON inl ("pong: " +:+ payload))
           "ping" "hello" "hello" "pong: hello" EmptyString "pong: hello").
  - reflexivity.
  - reflexivity.
  - reflexivity.
  - reflexivity.
Defined.

Lemma ReplyError_is_a_client_error_witness :
  SendRequestAndGetResponse (Req := string) (Resp := string) inl inl "string" "*string"
    (peer (fun _ _ => ReplyError (Some "no such command"))) "run_cmd" "{}"
    (Some "before") = (Some "before", Some (ClientError "client error: no such command")).
Proof.
  apply (ReplyError_is_a_client_error (Req := string) (Resp := string) inl inl
           "string" "*string" inl
           (fun _ _ => ReplyError (Some "no such command"))
           "run_cmd" "{}" "{}" "no such command" (Some "before") EmptyString).
  - reflexivity.
  - left. reflexivity.
Defined.

End CommExamples.

Section FlagsFacts.
Import MoreStrings Flags.
Variable CanonicalMIMEHeaderKey : string -> string.
Variable TrimSpace : string -> string.

Lemma sliceFrom_app_cons (key rest : string) (c : ascii) :
  sliceFrom (key +:+ String c rest) (S (String.length key)) = rest.
Proof. induction key as [|a key IH]; simpl; [now destruct rest | exact IH]. Qed.

Lemma In_app_char (c : ascii) (key rest : string) :
  In c (list_ascii_of_string (key +:+ String c rest)).
Proof. induction key as [|a key IH]; simpl; auto. Qed.

(** X25: the flag [--header] is refused exactly when its argument has no
    colon, and a refused argument leaves the headers as they were. *)
Theorem headerFlags_Set_fails_without_colon (flag : headerFlags) (arg : string) :
  ((headerFlags_Set CanonicalMIMEHeaderKey TrimSpace flag arg).2 <> None
   <-> ~ In ":"%char (list_ascii_of_string arg))
  /\ ((headerFlags_Set CanonicalMIMEHeaderKey TrimSpace flag arg).2 <> None ->
      (headerFlags_Set CanonicalMIMEHeaderKey TrimSpace flag arg).1 = flag).
Proof.
  unfold headerFlags_Set.
  destruct (Index_char ":" arg) as [[Hidx Hnot]|(key & rest & -> & Hnot & Hidx)];
    rewrite Hidx.
  - simpl. split; [|reflexivity]. split; [intros _; exact Hnot | discriminate].
  - replace (Z.of_nat (String.length key) <? 0)%Z with false
      by (symmetry; apply Z.ltb_ge; lia).
    simpl. split.
    + split; [congruence|]. intros Habs. exfalso. apply Habs, In_app_char.
    + congruence.
Qed.

(** X26: an argument of the flag [--header] is split at its FIRST colon: the
    part before it is the name of the header, and all that follows, further
    colons included, is the value, which replaces the former values of that
    header once the spaces around it are cut off. *)
Theorem headerFlags_Set_splits_at_first_colon (flag : headerFlags) (key rest : string)
    (Hkey : ~ In ":"%char (list_ascii_of_string key)) :
  headerFlags_Set CanonicalMIMEHeaderKey TrimSpace flag (key +:+ String ":" rest)
  = ({| FlagHeader :=
          Some (<[CanonicalMIMEHeaderKey key := [TrimSpace rest]]>
                  (default ∅ (FlagHeader flag))) |}, None).
Proof.
  unfold headerFlags_Set. rewrite (Index_first ":" key rest Hkey).
  replace (Z.of_nat (String.length key) <? 0)%Z with false
    by (symmetry; apply Z.ltb_ge; lia).
  rewrite Nat2Z.id.
  replace (Z.to_nat (Z.of_nat (String.length key) + 1)) with (S (String.length key)) by lia.
  rewrite sliceTo_app, sliceFrom_app_cons.
  unfold HeaderSet. now destruct (FlagHeader flag).
Qed.

End FlagsFacts.

Section FlagsExamples.
Import MoreStrings Flags.

Lemma headerFlags_Set_splits_at_first_colon_witness :
  headerFlags_Set id id {| FlagHeader := None |} "Referer: http://example.com"
  = ({| FlagHeader := Some (<["Referer" := [" http://example.com"]]> ∅) |}, None).
Proof.
  apply (headerFlags_Set_splits_at_first_colon id id {| FlagHeader := None |}
           "Referer" " http://example.com").
  simpl. intros [H|[H|[H|[H|[H|[H|[H|[]]]]]]]]; discriminate H.
Defined.

End FlagsExamples.

Section BindataFacts.
Import Strings MoreStrings Bindata.
Variable bindataRead : string -> string + string.

Lemma bindata_lookup (cn : string) (f : Loader) :
  _bindata !! cn = Some f <->
  (cn = "001_init.down.sql" /\ f = _001_initDownSql)
  \/ (cn = "001_init.up.sql" /\ f = _001_initUpSql).
Proof.
  unfold _bindata. rewrite lookup_insert_Some, lookup_singleton_Some.
  split.
  - intros [[<- <-]|[_ [<- <-]]]; auto.
  - intros [[-> ->]|[-> ->]]; [left | right]; auto.
Qed.

Lemma AssetNames_lookup (cn : string) :
  cn ∈ AssetNames <-> exists f, _bindata !! cn = Some f.
Proof.
  unfold AssetNames. rewrite list_elem_of_fmap. split.
  - intros [[k f] [-> Hin]]. exists f. now apply elem_of_map_to_list.
  - intros [f Hf]. exists (cn, f). split; [reflexivity|]. now apply elem_of_map_to_list.
Qed.

Lemma load_read (f : Loader) (cn : string) :
  _bindata !! cn = Some f ->
  match bindataRead cn with
  | inl b => exists fi, load bindataRead f = inl {| bytes := b; info := fi |}
                        /\ name fi = cn /\ IsDir fi = false
  | inr err => load bindataRead f = inr err
  end.
Proof.
  intros Hf. apply bindata_lookup in Hf as [[-> ->]|[-> ->]]; cbn [load];
    destruct (bindataRead _) as [b|err]; try reflexivity;
    eexists; (split; [reflexivity|]); split; reflexivity.
Qed.

(** X27: [Asset] and [AssetInfo] succeed on the same names: those whose
    form with forward slashes is one of [AssetNames] and whose embedded data
    can be read.  The info that [AssetInfo] returns bears that name, and is
    not the info of a directory. *)
Theorem Asset_and_AssetInfo_agree (assetName : string) :
  let cannonicalName := ReplaceAll assetName "\" "/" in
  ((Asset bindataRead assetName).2 = None
   <-> cannonicalName ∈ AssetNames /\ exists b, bindataRead cannonicalName = inl b)
  /\ ((AssetInfo bindataRead assetName).2 = None <-> (Asset bindataRead assetName).2 = None)
  /\ match (AssetInfo bindataRead assetName).1 with
     | Some fi => name fi = cannonicalName /\ IsDir fi = false
     | None => (AssetInfo bindataRead assetName).2 <> None
     end.
Proof.
  intros cn. unfold Asset, AssetInfo. fold cn.
  rewrite AssetNames_lookup.
  destruct (_bindata !! cn) as [f|] eqn:Hf.
  - pose proof (load_read f cn Hf) as Hload.
    destruct (bindataRead cn) as [b|err].
    + destruct Hload as (fi & -> & Hname & Hdir). cbn.
      split; [|split; [tauto | auto]].
      split; [intros _|reflexivity]. split; [now exists f | now exists b].
    + rewrite Hload. cbn.
      split; [|split; [split; discriminate | discriminate]].
      split; [discriminate|]. intros [_ [b Hb]]. discriminate Hb.
  - cbn. split; [|split; [split; discriminate | discriminate]].
    split; [discriminate|]. intros [[f Habs] _]. discriminate Habs.
Qed.

(** X28: [AssetDir] lists the root only: it returns the asset names for the
    empty name, and an error for every other name, the names of the assets
    included, since these are files. *)
Theorem AssetDir_lists_the_root_only (dir : string) :
  ((AssetDir dir).2 = None <-> dir = EmptyString)
  /\ (AssetDir EmptyString).1 ≡ₚ AssetNames.
Proof.
  split.
  - destruct dir as [|c rest]; [split; reflexivity|].
    split; [|discriminate]. intros H. exfalso. revert H.
    unfold AssetDir. cbn [String.length Nat.eqb].
    unfold Split.
    destruct (splitAt "/" [] (ReplaceAll (String c rest) "\" "/")) as [|p pathList] eqn:Hsplit.
    { now apply splitAt_nonempty in Hsplit. }
    cbn [descend _bintree Children child].
    destruct (String.eqb "001_init.down.sql" p).
    { destruct pathList; cbn; discriminate. }
    destruct (String.eqb "001_init.up.sql" p).
    { destruct pathList; cbn; discriminate. }
    cbn. discriminate.
  - unfold AssetNames, _bindata. cbn.
    rewrite map_to_list_insert by reflexivity.
    rewrite map_to_list_singleton. reflexivity.
Qed.

End BindataFacts.
